(** * Persistent tick accumulator (drivers/misc/mediatek/rtc/mtk_rtc_tickstamp.c)

    A shallow embedding of the tick-stamp module: the module's globals, the
    kernel services it calls (path lookup, file I/O, work queue, ticker
    callback) as explicit state, and every function of the file as a state
    transformer.  Machine integers are [Z] with the wrap-around written out. *)

From Stdlib Require Import String ZArith List Bool Lia Permutation.
Import ListNotations.
Open Scope list_scope.
Open Scope Z_scope.

(** ** Machine integers *)

Module MachInt.

(** [unsigned long] and [long] are 64 bits wide on the arm64 target,
    [unsigned int] is 32 bits wide. *)
Definition ULONG_MOD : Z := 2 ^ 64.
Definition LONG_MAX : Z := 2 ^ 63 - 1.
Definition LONG_MIN : Z := - 2 ^ 63.
Definition ULONG_MAX : Z := 2 ^ 64 - 1.
Definition UINT_MOD : Z := 2 ^ 32.

(** Conversion of a mathematical integer to [unsigned long]. *)
Definition to_ulong (z : Z) : Z := z mod ULONG_MOD.

(** Conversion to [long]: the two's complement reading of the low 64 bits. *)
Definition to_long (z : Z) : Z := (z + 2 ^ 63) mod ULONG_MOD - 2 ^ 63.

(** Conversion to [unsigned int]. *)
Definition to_uint (z : Z) : Z := z mod UINT_MOD.

Definition in_long (z : Z) : Prop := LONG_MIN <= z <= LONG_MAX.
Definition in_ulong (z : Z) : Prop := 0 <= z <= ULONG_MAX.

End MachInt.
Export MachInt.

(** ** Little-endian byte images of a record *)

Module Bytes.

(** The [n] low-order bytes of [u], least significant first. *)
Fixpoint le_bytes (n : nat) (u : Z) : list Z :=
  match n with
  | O => []
  | S n' => u mod 256 :: le_bytes n' (u / 256)
  end.

(** The number a little-endian byte string denotes. *)
Fixpoint le_value (bs : list Z) : Z :=
  match bs with
  | [] => 0
  | b :: rest => b mod 256 + 256 * le_value rest
  end.

End Bytes.
Export Bytes.

(** ** Data model *)

(** Modelled from the spec: [struct tick_stamp], declared in
    mtk_rtc_tickstamp.h (not among the sources): a single signed integer
    field [epoch]; the code uses it as a [long]. *)
Record tick_stamp : Type := mk_stamp { epoch : Z }.

(** [sizeof(struct tick_stamp)]. *)
Definition SIZEOF_STAMP : nat := 8.

(** The in-memory image of a stamp and the stamp an image denotes. *)
Definition stamp_bytes (st : tick_stamp) : list Z :=
  le_bytes SIZEOF_STAMP (to_ulong (epoch st)).
Definition stamp_of_bytes (bs : list Z) : tick_stamp :=
  mk_stamp (to_long (le_value bs)).

(** Modelled from the spec: [struct ts_work_struct], declared in
    mtk_rtc_tickstamp.h: a work item with a retry budget and an
    inter-attempt delay.  Of the embedded [struct work_struct] only the
    pending bit matters here. *)
Record ts_work_struct : Type := mk_work {
  pending : bool;
  retrigger_count : Z;
  trigger_interval : Z
}.

(** The two work items of the module, and pointers to them. *)
Inductive work_id : Type := WriteWork | ReadWork.

(** The worker function a work item is initialised with. *)
Inductive ts_worker_func : Type := Fn_ts_write_stamp | Fn_ts_read_stamp.

(** Modelled from the spec: [ticker_func], declared in mtk_rtc_tickstamp.h:
    a callback returning the current raw ticker value.  The callback is
    given by the value of each of its successive calls. *)
Definition ticker_func : Type := nat -> Z.

Inductive mm_segment_t : Type := USER_DS | KERNEL_DS.

(** An open file: the module only ever opens [TS_PATH]. *)
Record file : Type := mk_file { f_path : string; f_pos : nat }.

(** Messages of the module's [printk] calls. *)
Inductive message : Type :=
| MsgOpenFailed
| MsgCloseFailed
| MsgInvalidStamp
| MsgWriteWorkFailed
| MsgWriteFailed.

(** What the module does to the world around it, most recent first. *)
Inductive event : Type :=
| EvKernPath (dir : string) (ret : Z)
| EvMsleep (msecs : Z)
| EvOpen (path : string) (ok : bool)
| EvRead (ret : Z)
| EvWrite (ret : Z)
| EvClose (ret : Z)
| EvTicker (value : Z)
| EvSchedule (w : work_id) (queued : bool)
| EvPrintk (m : message) (arg : Z)
| EvMutexWait        (* mutex_lock found the mutex held *)
| EvUnlockUnheld.    (* mutex_unlock on a mutex that is not held *)

(** The module's globals together with the kernel state it depends on. *)
Record state : Type := mk_state {
  (* globals of the file *)
  g_stamp : tick_stamp;
  g_ticker_fn : option ticker_func;
  ts_write_work : ts_work_struct;
  ts_write_fn : option ts_worker_func;
  ts_read_work : ts_work_struct;
  ts_read_fn : option ts_worker_func;
  init_done : bool;
  mutex_held : bool;
  (* kernel *)
  addr_limit : mm_segment_t;
  ticker_calls : nat;
  path_lookups : nat;
  lookup_ret : nat -> Z;              (* result of each successive kern_path *)
  tickstamp_file : option (list Z);   (* content of TS_PATH, if it exists *)
  open_err : option positive;         (* filp_open fails with this errno *)
  read_err : option positive;         (* vfs_read fails with this errno *)
  write_err : option positive;        (* vfs_write fails with this errno *)
  close_ret : Z;                      (* what filp_close returns *)
  trace : list event
}.

Definition INFINITY : Z := UINT_MOD - 1.
Definition TS_DIR : string := "/cache/sc".
Definition TS_PATH : string := (TS_DIR ++ "/tickstamp")%string.
Definition EIO : Z := 5.
Definition EFAULT : Z := 14.
Definition EINVAL : Z := 22.
Definition ENOENT : Z := 2.

(** ** Field updates *)

Definition set_stamp (v : tick_stamp) (s : state) : state :=
  mk_state v (g_ticker_fn s) (ts_write_work s) (ts_write_fn s)
    (ts_read_work s) (ts_read_fn s) (init_done s) (mutex_held s)
    (addr_limit s) (ticker_calls s) (path_lookups s) (lookup_ret s)
    (tickstamp_file s) (open_err s) (read_err s) (write_err s) (close_ret s)
    (trace s).

Definition set_ticker_fn (v : option ticker_func) (s : state) : state :=
  mk_state (g_stamp s) v (ts_write_work s) (ts_write_fn s)
    (ts_read_work s) (ts_read_fn s) (init_done s) (mutex_held s)
    (addr_limit s) (ticker_calls s) (path_lookups s) (lookup_ret s)
    (tickstamp_file s) (open_err s) (read_err s) (write_err s) (close_ret s)
    (trace s).

Definition set_write_work (v : ts_work_struct) (s : state) : state :=
  mk_state (g_stamp s) (g_ticker_fn s) v (ts_write_fn s)
    (ts_read_work s) (ts_read_fn s) (init_done s) (mutex_held s)
    (addr_limit s) (ticker_calls s) (path_lookups s) (lookup_ret s)
    (tickstamp_file s) (open_err s) (read_err s) (write_err s) (close_ret s)
    (trace s).

Definition set_write_fn (v : option ts_worker_func) (s : state) : state :=
  mk_state (g_stamp s) (g_ticker_fn s) (ts_write_work s) v
    (ts_read_work s) (ts_read_fn s) (init_done s) (mutex_held s)
    (addr_limit s) (ticker_calls s) (path_lookups s) (lookup_ret s)
    (tickstamp_file s) (open_err s) (read_err s) (write_err s) (close_ret s)
    (trace s).

Definition set_read_work (v : ts_work_struct) (s : state) : state :=
  mk_state (g_stamp s) (g_ticker_fn s) (ts_write_work s) (ts_write_fn s)
    v (ts_read_fn s) (init_done s) (mutex_held s)
    (addr_limit s) (ticker_calls s) (path_lookups s) (lookup_ret s)
    (tickstamp_file s) (open_err s) (read_err s) (write_err s) (close_ret s)
    (trace s).

Definition set_read_fn (v : option ts_worker_func) (s : state) : state :=
  mk_state (g_stamp s) (g_ticker_fn s) (ts_write_work s) (ts_write_fn s)
    (ts_read_work s) v (init_done s) (mutex_held s)
    (addr_limit s) (ticker_calls s) (path_lookups s) (lookup_ret s)
    (tickstamp_file s) (open_err s) (read_err s) (write_err s) (close_ret s)
    (trace s).

Definition set_init_done (v : bool) (s : state) : state :=
  mk_state (g_stamp s) (g_ticker_fn s) (ts_write_work s) (ts_write_fn s)
    (ts_read_work s) (ts_read_fn s) v (mutex_held s)
    (addr_limit s) (ticker_calls s) (path_lookups s) (lookup_ret s)
    (tickstamp_file s) (open_err s) (read_err s) (write_err s) (close_ret s)
    (trace s).

Definition set_mutex_held (v : bool) (s : state) : state :=
  mk_state (g_stamp s) (g_ticker_fn s) (ts_write_work s) (ts_write_fn s)
    (ts_read_work s) (ts_read_fn s) (init_done s) v
    (addr_limit s) (ticker_calls s) (path_lookups s) (lookup_ret s)
    (tickstamp_file s) (open_err s) (read_err s) (write_err s) (close_ret s)
    (trace s).

Definition set_addr_limit (v : mm_segment_t) (s : state) : state :=
  mk_state (g_stamp s) (g_ticker_fn s) (ts_write_work s) (ts_write_fn s)
    (ts_read_work s) (ts_read_fn s) (init_done s) (mutex_held s)
    v (ticker_calls s) (path_lookups s) (lookup_ret s)
    (tickstamp_file s) (open_err s) (read_err s) (write_err s) (close_ret s)
    (trace s).

Definition set_ticker_calls (v : nat) (s : state) : state :=
  mk_state (g_stamp s) (g_ticker_fn s) (ts_write_work s) (ts_write_fn s)
    (ts_read_work s) (ts_read_fn s) (init_done s) (mutex_held s)
    (addr_limit s) v (path_lookups s) (lookup_ret s)
    (tickstamp_file s) (open_err s) (read_err s) (write_err s) (close_ret s)
    (trace s).

Definition set_path_lookups (v : nat) (s : state) : state :=
  mk_state (g_stamp s) (g_ticker_fn s) (ts_write_work s) (ts_write_fn s)
    (ts_read_work s) (ts_read_fn s) (init_done s) (mutex_held s)
    (addr_limit s) (ticker_calls s) v (lookup_ret s)
    (tickstamp_file s) (open_err s) (read_err s) (write_err s) (close_ret s)
    (trace s).

Definition set_tickstamp_file (v : option (list Z)) (s : state) : state :=
  mk_state (g_stamp s) (g_ticker_fn s) (ts_write_work s) (ts_write_fn s)
    (ts_read_work s) (ts_read_fn s) (init_done s) (mutex_held s)
    (addr_limit s) (ticker_calls s) (path_lookups s) (lookup_ret s)
    v (open_err s) (read_err s) (write_err s) (close_ret s)
    (trace s).

Definition log (e : event) (s : state) : state :=
  mk_state (g_stamp s) (g_ticker_fn s) (ts_write_work s) (ts_write_fn s)
    (ts_read_work s) (ts_read_fn s) (init_done s) (mutex_held s)
    (addr_limit s) (ticker_calls s) (path_lookups s) (lookup_ret s)
    (tickstamp_file s) (open_err s) (read_err s) (write_err s) (close_ret s)
    (e :: trace s).

(** ** A state monad for the module's functions *)

Definition M (A : Type) : Type := state -> A * state.

Definition ret {A} (a : A) : M A := fun s => (a, s).
Definition bind {A B} (m : M A) (k : A -> M B) : M B :=
  fun s => let (a, s') := m s in k a s'.
Definition modify (f : state -> state) : M unit := fun s => (tt, f s).
Definition gets {A} (f : state -> A) : M A := fun s => (f s, s).
Definition exec {A} (m : M A) (s : state) : state := snd (m s).
Definition eval {A} (m : M A) (s : state) : A := fst (m s).

Declare Scope ts_scope.
Delimit Scope ts_scope with ts.
Notation "x <- m ;; k" := (bind m (fun x => k))
  (at level 61, m at next level, right associativity) : ts_scope.
Notation "m ;; k" := (bind m (fun _ => k))
  (at level 61, right associativity) : ts_scope.
Open Scope ts_scope.

(** ** Kernel services used by the module *)

Module Kernel.

Inductive open_flags : Type :=
| O_RDONLY
| O_CREAT_TRUNC_WRONLY.   (* O_CREAT | O_TRUNC | O_WRONLY *)

(** A destination buffer of a read: the module only reads into [g_stamp]. *)
Inductive buffer : Type := Buf_g_stamp.

Definition get_fs : M mm_segment_t := gets addr_limit.
Definition get_ds : mm_segment_t := KERNEL_DS.
Definition set_fs (seg : mm_segment_t) : M unit := modify (set_addr_limit seg).

Definition printk (m : message) (arg : Z) : M unit :=
  modify (log (EvPrintk m arg)).

(** [mutex_lock].  The runs modelled here are sequential: a caller that
    finds the mutex held would sleep until the holder releases it; that
    wait is recorded and the run goes on with the mutex taken. *)
Definition mutex_lock : M unit := fun s =>
  if mutex_held s then (tt, log EvMutexWait s)
  else (tt, set_mutex_held true s).

(** [mutex_unlock].  Releasing a mutex that is not held is a misuse the
    kernel forbids; it is recorded and the mutex stays free. *)
Definition mutex_unlock : M unit := fun s =>
  if mutex_held s then (tt, set_mutex_held false s)
  else (tt, log EvUnlockUnheld s).

Definition msleep (msecs : Z) : M unit := modify (log (EvMsleep msecs)).

(** [kern_path(dir, LOOKUP_FOLLOW, &p)]: 0 when the path resolves. *)
Definition kern_path (dir : string) : M Z := fun s =>
  let r := lookup_ret s (path_lookups s) in
  (r, log (EvKernPath dir r) (set_path_lookups (S (path_lookups s)) s)).

(** [filp_open]: an errno (for an [ERR_PTR]) or an open file. *)
Definition filp_open (path : string) (flags : open_flags) (mode : Z)
  : M (positive + file) := fun s =>
  match open_err s with
  | Some e => (inl e, log (EvOpen path false) s)
  | None =>
    if negb (String.eqb path TS_PATH) then
      (inl (Z.to_pos ENOENT), log (EvOpen path false) s)
    else
      match flags, tickstamp_file s with
      | O_RDONLY, None =>
          (inl (Z.to_pos ENOENT), log (EvOpen path false) s)
      | O_RDONLY, Some _ =>
          (inr (mk_file path 0), log (EvOpen path true) s)
      | O_CREAT_TRUNC_WRONLY, _ =>
          (inr (mk_file path 0),
           log (EvOpen path true) (set_tickstamp_file (Some []) s))
      end
  end.

(** Copy bytes over the start of a destination buffer. *)
Definition copy_out (b : buffer) (bs : list Z) : M unit :=
  match b with
  | Buf_g_stamp =>
      modify (fun s =>
        set_stamp
          (stamp_of_bytes
             (bs ++ skipn (length bs) (stamp_bytes (g_stamp s)))) s)
  end.

(** [vfs_read(fp, data, count, &fp->f_pos)]: the number of bytes copied,
    or a negative errno.  A kernel buffer is only accepted under
    [KERNEL_DS].  The position update is not modelled: every file the
    module opens is used for one transfer. *)
Definition vfs_read (fp : file) (data : buffer) (count : nat) : M Z :=
  fun s =>
  match addr_limit s with
  | USER_DS => (- EFAULT, log (EvRead (- EFAULT)) s)
  | KERNEL_DS =>
    match read_err s with
    | Some e => (Z.neg e, log (EvRead (Z.neg e)) s)
    | None =>
      let content :=
        match tickstamp_file s with Some c => c | None => [] end in
      let bs := firstn count (skipn (f_pos fp) content) in
      let n := Z.of_nat (length bs) in
      (n, log (EvRead n) (exec (copy_out data bs) s))
    end
  end.

(** [vfs_write(fp, data, count, &fp->f_pos)]. *)
Definition vfs_write (fp : file) (data : list Z) (count : nat) : M Z :=
  fun s =>
  match addr_limit s with
  | USER_DS => (- EFAULT, log (EvWrite (- EFAULT)) s)
  | KERNEL_DS =>
    match write_err s with
    | Some e => (Z.neg e, log (EvWrite (Z.neg e)) s)
    | None =>
      let old :=
        match tickstamp_file s with Some c => c | None => [] end in
      let bs := firstn count data in
      let n := Z.of_nat (length bs) in
      let new :=
        firstn (f_pos fp) old ++ bs
          ++ skipn (f_pos fp + length bs) old in
      (n, log (EvWrite n) (set_tickstamp_file (Some new) s))
    end
  end.

Definition filp_close (fp : file) : M Z := fun s =>
  (close_ret s, log (EvClose (close_ret s)) s).

Definition get_work (w : work_id) (s : state) : ts_work_struct :=
  match w with
  | WriteWork => ts_write_work s
  | ReadWork => ts_read_work s
  end.

Definition set_work (w : work_id) (v : ts_work_struct) : state -> state :=
  match w with
  | WriteWork => set_write_work v
  | ReadWork => set_read_work v
  end.

(** [schedule_work]: queues the work unless it is already pending, and
    returns whether it queued it. *)
Definition schedule_work (w : work_id) : M bool := fun s =>
  let ws := get_work w s in
  if pending ws then (false, log (EvSchedule w false) s)
  else
    (true,
     log (EvSchedule w true)
       (set_work w
          (mk_work true (retrigger_count ws) (trigger_interval ws)) s)).

(** [INIT_WORK]: a fresh, idle work item bound to its function. *)
Definition INIT_WORK (w : work_id) (fn : ts_worker_func) : M unit :=
  modify (fun s =>
    let ws := get_work w s in
    let s' :=
      set_work w
        (mk_work false (retrigger_count ws) (trigger_interval ws)) s in
    match w with
    | WriteWork => set_write_fn (Some fn) s'
    | ReadWork => set_read_fn (Some fn) s'
    end).

(** A call of the registered ticker: its value converted to
    [unsigned long], as every use in the file converts it. *)
Definition call_ticker (f : ticker_func) : M Z := fun s =>
  let t := to_ulong (f (ticker_calls s)) in
  (t, log (EvTicker t) (set_ticker_calls (S (ticker_calls s)) s)).

End Kernel.
Export Kernel.

(** ** The functions of mtk_rtc_tickstamp.c

    A pointer parameter is the [option] of the value it points to ([None]
    for a null pointer); a function that writes through a pointer returns
    the new pointee. *)

Definition count_down (value : option Z) (delta : Z) : bool * option Z :=
  match value with
  | None => (false, None)
  | Some v =>
    if (v =? 0) || (v <? delta) then (false, Some v)
    else if v =? INFINITY then (true, Some v)
    else
      let v' := to_uint (v - delta) in
      (negb (v' =? 0), Some v')
  end.

(** The loop of [wait_vfsmount]; [fuel] bounds the number of iterations. *)
Fixpoint wait_loop (fuel : nat) (dir_name : string) (trigger_interval : Z)
    (retrigger_count : Z) (s : state) : option (bool * state) :=
  match fuel with
  | O => None
  | S fuel' =>
    let (go, value) := count_down (Some retrigger_count) 1 in
    let retrigger_count' :=
      match value with Some v => v | None => retrigger_count end in
    if go then
      let (retval, s1) := kern_path dir_name s in
      if retval =? 0 then Some (true, s1)
      else
        wait_loop fuel' dir_name trigger_interval retrigger_count'
          (exec (msleep trigger_interval) s1)
    else Some (false, s)
  end.

Definition wait_vfsmount (fuel : nat) (dir_name : option string)
    (trigger_interval retrigger_count : Z) (s : state)
    : option (bool * state) :=
  match dir_name with
  | None => Some (false, s)
  | Some dir => wait_loop fuel dir trigger_interval retrigger_count s
  end.

(** [fs_set(&oldfs)]: returns what it stores in [*oldfs]. *)
Definition fs_set (oldfs : option mm_segment_t) : M (option mm_segment_t) :=
  match oldfs with
  | None => ret None
  | Some _ =>
      old <- get_fs ;;
      set_fs get_ds ;;
      ret (Some old)
  end.

Definition fs_restore (oldfs : option mm_segment_t) : M unit :=
  match oldfs with
  | None => ret tt
  | Some old => set_fs old
  end.

(** [ts_open]: [None] is the NULL it returns on failure. *)
Definition ts_open (path : string) (flags : open_flags) (mode : Z)
  : M (option file) :=
  oldfs <- fs_set (Some USER_DS) ;;
  fp <- filp_open path flags mode ;;
  fs_restore oldfs ;;
  match fp with
  | inl e => printk MsgOpenFailed (Z.neg e) ;; ret None
  | inr f => ret (Some f)
  end.

Definition ts_close (fp : option file) : M unit :=
  match fp with
  | None => ret tt
  | Some f =>
      retval <- filp_close f ;;
      if retval =? 0 then ret tt else printk MsgCloseFailed retval
  end.

Definition ts_read (fp : file) (data : buffer) (count : nat) : M Z :=
  oldfs <- fs_set (Some USER_DS) ;;
  retval <- vfs_read fp data count ;;
  fs_restore oldfs ;;
  ret retval.

Definition ts_write (fp : file) (data : list Z) (count : nat) : M Z :=
  oldfs <- fs_set (Some USER_DS) ;;
  retval <- vfs_write fp data count ;;
  fs_restore oldfs ;;
  ret retval.

Definition get_stamp (stamp : option tick_stamp) : M (option tick_stamp) :=
  match stamp with
  | None => ret None
  | Some _ => g <- gets g_stamp ;; ret (Some g)
  end.

Definition ts_work_init (ts_work : option work_id) (work_fn : ts_worker_func)
    (retrigger trigger : Z) : M unit :=
  match ts_work with
  | None => ret tt
  | Some w =>
      INIT_WORK w work_fn ;;
      modify (fun s =>
        set_work w (mk_work (pending (get_work w s)) retrigger trigger) s)
  end.

Definition ts_work_run (ts_work : option work_id) : M bool :=
  match ts_work with
  | None => ret false
  | Some w => schedule_work w
  end.

Definition ts_stamp (tick : Z) : M unit :=
  fn <- gets g_ticker_fn ;;
  match fn with
  | None => ret tt
  | Some f =>
      t <- call_ticker f ;;
      let delta := to_long (to_ulong (t - tick)) in
      modify (fun s =>
        set_stamp (mk_stamp (to_long (epoch (g_stamp s) + delta))) s)
  end.

Definition ts_set : M bool :=
  queued <- ts_work_run (Some WriteWork) ;;
  ret (Bool.eqb queued false).

Definition ts_get (epoch_ptr : option Z) : M (option Z) :=
  match epoch_ptr with
  | None => ret None
  | Some _ =>
      stamp <- get_stamp (Some (mk_stamp 0)) ;;
      match stamp with
      | Some st => ret (Some (epoch st))
      | None => ret epoch_ptr
      end
  end.

(** The code of [ts_read_stamp] from the label [_exit] on. *)
Definition ts_read_stamp_exit (tsfp : option file) (size tick : Z) : M unit :=
  ts_close tsfp ;;
  mutex_unlock ;;
  if size <? 0 then
    printk MsgInvalidStamp size ;;
    ts_stamp tick ;;
    ok <- ts_set ;;
    if negb ok then printk MsgWriteWorkFailed 0 else ret tt
  else ret tt.

(** The code of [ts_read_stamp] once the mount wait has succeeded. *)
Definition ts_read_stamp_mounted : M unit :=
  mutex_lock ;;
  tsfp <- ts_open TS_PATH O_RDONLY 0 ;;
  match tsfp with
  | None => ts_read_stamp_exit None (- EIO) 0
  | Some fp =>
      size <- ts_read fp Buf_g_stamp SIZEOF_STAMP ;;
      if size <? 0 then ts_read_stamp_exit tsfp size 0
      else
        fn <- gets g_ticker_fn ;;
        match fn with
        | None => ts_read_stamp_exit tsfp size 0
        | Some f =>
            tick <- call_ticker f ;;
            e <- gets (fun s => epoch (g_stamp s)) ;;
            if e >? to_long tick then
              modify (set_stamp (mk_stamp 0)) ;;
              ts_read_stamp_exit tsfp (- EINVAL) tick
            else ts_read_stamp_exit tsfp size tick
        end
  end.

Definition ts_read_stamp (fuel : nat) (work : work_id) (s : state)
  : option (unit * state) :=
  let ts_read_work := get_work work s in
  match
    wait_vfsmount fuel (Some TS_DIR) (trigger_interval ts_read_work)
      (retrigger_count ts_read_work) s
  with
  | None => None
  | Some (false, s1) => Some (ts_read_stamp_exit None (- EIO) 0 s1)
  | Some (true, s1) => Some (ts_read_stamp_mounted s1)
  end.

(** The code of [ts_write_stamp] from the label [_exit] on. *)
Definition ts_write_stamp_exit (tsfp : option file) (size : Z) : M unit :=
  ts_close tsfp ;;
  mutex_unlock ;;
  if size <? 0 then printk MsgWriteFailed size else ret tt.

Definition ts_write_stamp_mounted : M unit :=
  mutex_lock ;;
  tsfp <- ts_open TS_PATH O_CREAT_TRUNC_WRONLY 292 ;;   (* 0444 *)
  match tsfp with
  | None => ts_write_stamp_exit None (- EIO)
  | Some fp =>
      stamp <- get_stamp (Some (mk_stamp 0)) ;;
      let image :=
        match stamp with Some st => stamp_bytes st | None => [] end in
      size <- ts_write fp image SIZEOF_STAMP ;;
      ts_write_stamp_exit tsfp size
  end.

Definition ts_write_stamp (fuel : nat) (work : work_id) (s : state)
  : option (unit * state) :=
  let ts_write_work := get_work work s in
  match
    wait_vfsmount fuel (Some TS_DIR) (trigger_interval ts_write_work)
      (retrigger_count ts_write_work) s
  with
  | None => None
  | Some (false, s1) => Some (ts_write_stamp_exit None (- EIO) s1)
  | Some (true, s1) => Some (ts_write_stamp_mounted s1)
  end.

Definition ts_init (ticker_fn : option ticker_func) : M bool :=
  done <- gets init_done ;;
  if negb done then
    modify (set_ticker_fn ticker_fn) ;;
    ts_work_init (Some WriteWork) Fn_ts_write_stamp INFINITY 1000 ;;
    ts_work_init (Some ReadWork) Fn_ts_read_stamp INFINITY 1000 ;;
    retval <- ts_work_run (Some ReadWork) ;;
    modify (set_init_done true) ;;
    ret retval
  else ret true.

(** The state of a freshly loaded module: zeroed globals, an unlocked
    mutex, and a given kernel environment. *)
Definition boot (lookups : nat -> Z) (disk : option (list Z))
    (oerr rerr werr : option positive) (cret : Z) : state :=
  mk_state (mk_stamp 0) None (mk_work false 0 0) None (mk_work false 0 0)
    None false false USER_DS 0%nat 0%nat lookups disk oerr rerr werr cret [].

(** ** Observations on a run *)

(** A state that differs from [s] in the lookup counter and the trace. *)
Definition with_lookups (n : nat) (tr : list event) (s : state) : state :=
  mk_state (g_stamp s) (g_ticker_fn s) (ts_write_work s) (ts_write_fn s)
    (ts_read_work s) (ts_read_fn s) (init_done s) (mutex_held s)
    (addr_limit s) (ticker_calls s) n (lookup_ret s)
    (tickstamp_file s) (open_err s) (read_err s) (write_err s)
    (close_ret s) tr.

(** The events of [k] failed polls of [dir] starting at lookup [n], most
    recent first. *)
Fixpoint poll_events (dir : string) (interval : Z) (k : nat) (lr : nat -> Z)
    (n : nat) : list event :=
  match k with
  | O => []
  | S k' =>
      poll_events dir interval k' lr (S n)
        ++ [EvMsleep interval; EvKernPath dir (lr n)]
  end.

(** The state in which the wait returns when the path resolves at the
    [k]-th poll from now (counting from 0). *)
Definition waited (dir : string) (interval : Z) (k : nat) (s : state)
  : state :=
  with_lookups (S (path_lookups s + k))
    (EvKernPath dir 0
       :: poll_events dir interval k (lookup_ret s) (path_lookups s)
       ++ trace s) s.

(** The path resolves at the [k]-th poll from now and not before. *)
Definition mounts_after (s : state) (k : nat) : Prop :=
  (forall j, (j < k)%nat -> lookup_ret s (path_lookups s + j) <> 0) /\
  lookup_ret s (path_lookups s + k) = 0.

(** The retry budget allows the [k + 1] polls needed. *)
Definition budget_covers (count : Z) (k : nat) : Prop :=
  count = INFINITY \/ Z.of_nat k + 2 <= count < INFINITY.

(** Number of requests to queue the persist worker recorded in a trace. *)
Fixpoint persist_requests (tr : list event) : nat :=
  match tr with
  | [] => 0
  | EvSchedule WriteWork _ :: tr' => S (persist_requests tr')
  | _ :: tr' => persist_requests tr'
  end.


(** The stamp in memory after a read of a file of content [c] over the
    stamp [g]: the bytes read replace the first bytes of the image. *)
Definition stamp_after_read (c : list Z) (g : tick_stamp) : tick_stamp :=
  let bs := firstn SIZEOF_STAMP c in
  stamp_of_bytes (bs ++ skipn (length bs) (stamp_bytes g)).

(** The stamp after [ts_stamp tick] on a stamp [g], with the ticker [fn]
    about to be called for the [n]-th time. *)
Definition stamped (tick : Z) (fn : option ticker_func) (n : nat)
    (g : tick_stamp) : tick_stamp :=
  match fn with
  | None => g
  | Some f =>
      mk_stamp (to_long (epoch g + to_long (to_ulong (to_ulong (f n) - tick))))
  end.

(** The open of [TS_PATH] for reading fails. *)
Definition open_fails (s : state) : Prop :=
  open_err s <> None \/ tickstamp_file s = None.

(** The worker reaches the label [_exit] in state [sm], having started in
    [s]: the stamp is [g], the ticker has been called [n] times, and
    nothing else that matters has changed. *)
Definition at_exit (s sm : state) (g : tick_stamp) (n : nat) : Prop :=
  g_stamp sm = g /\
  g_ticker_fn sm = g_ticker_fn s /\
  ticker_calls sm = n /\
  ts_write_work sm = ts_write_work s /\
  persist_requests (trace sm) = persist_requests (trace s) /\
  tickstamp_file sm = tickstamp_file s.

(** A sequence of calls [ts_stamp(r1); ...; ts_stamp(rn)]. *)
Fixpoint ts_stamp_seq (rs : list Z) : M unit :=
  match rs with
  | [] => ret tt
  | r :: rs' => ts_stamp r ;; ts_stamp_seq rs'
  end.

(** The sum, over the calls, of the ticker value read during the call
    minus the call's reference tick; the first call makes the [n]-th call
    of the ticker. *)
Fixpoint delta_sum (f : ticker_func) (n : nat) (rs : list Z) : Z :=
  match rs with
  | [] => 0
  | r :: rs' => (to_ulong (f n) - r) + delta_sum f (S n) rs'
  end.

Definition Zsum (l : list Z) : Z := fold_right Z.add 0 l.

(** ** Calls of [ts_stamp] from several execution contexts

    [ts_stamp] takes no lock: a call is a sequence of steps that other
    calls can interleave with.  [g_stamp.epoch += delta] is a load, an
    addition and a store. *)

Module Threads.

(** Where a call of [ts_stamp] stands. *)
Inductive stamp_pc : Type :=
| AtEntry (tick : Z)          (* called, nothing done yet *)
| AtAdd (delta : Z)           (* [delta] computed, epoch not yet loaded *)
| AtStore (delta tmp : Z)     (* epoch loaded into [tmp], not yet stored *)
| Returned.

Definition stamp_step (pc : stamp_pc) (s : state) : stamp_pc * state :=
  match pc with
  | AtEntry tick =>
      match g_ticker_fn s with
      | None => (Returned, s)
      | Some f =>
          let (t, s1) := call_ticker f s in
          (AtAdd (to_long (to_ulong (t - tick))), s1)
      end
  | AtAdd delta => (AtStore delta (epoch (g_stamp s)), s)
  | AtStore delta tmp =>
      (Returned, set_stamp (mk_stamp (to_long (tmp + delta))) s)
  | Returned => (Returned, s)
  end.

(** The calls in flight, by thread number. *)
Definition pool : Type := nat -> stamp_pc.

Definition upd (i : nat) (pc : stamp_pc) (p : pool) : pool :=
  fun j => if Nat.eqb j i then pc else p j.

(** Thread [i] makes one step. *)
Definition sched_step (cfg : pool * state) (i : nat) : pool * state :=
  let (pc', s') := stamp_step (fst cfg i) (snd cfg) in
  (upd i pc' (fst cfg), s').

(** The threads step in the order the schedule gives. *)
Definition run_schedule (sched : list nat) (cfg : pool * state)
  : pool * state :=
  fold_left sched_step sched cfg.

(** One call per delta, each with its delta already computed. *)
Definition spawn (ds : list Z) : pool :=
  fun i =>
    match nth_error ds i with
    | Some d => AtAdd d
    | None => Returned
    end.

Definition is_returned (pc : stamp_pc) : bool :=
  match pc with Returned => true | _ => false end.

Definition all_returned (n : nat) (p : pool) : bool :=
  forallb (fun i => is_returned (p i)) (seq 0 n).

(** The schedule in which the threads of [order] run one after the other,
    each to completion. *)
Definition serial (order : list nat) : list nat :=
  flat_map (fun i => [i; i]) order.

End Threads.

(** ** Example states *)

Module Examples.

(** A module initialised with a ticker that always reads 100, on a
    mounted cache partition with the given tick-stamp file. *)
Definition ticker100 : ticker_func := fun _ => 100.

Definition booted (disk : option (list Z)) : state :=
  exec (ts_init (Some ticker100))
    (boot (fun _ => 0) disk None None None 0).

Definition s_fresh : state := booted None.
Definition s_record (e : Z) : state :=
  booted (Some (stamp_bytes (mk_stamp e))).

(** A module whose ticker always reads 0. *)
Definition s_zero_ticker : state :=
  exec (ts_init (Some (fun _ => 0)))
    (boot (fun _ => 0) None None None None 0).

(** The same with the epoch at [LONG_MAX] and a ticker reading 1. *)
Definition s_long_max : state :=
  set_stamp (mk_stamp LONG_MAX)
    (exec (ts_init (Some (fun _ => 1)))
       (boot (fun _ => 0) None None None None 0)).

(** A one-byte file, and a read that fails with [EIO]. *)
Definition s_short : state := booted (Some [7]).
Definition s_read_error : state :=
  exec (ts_init (Some ticker100))
    (boot (fun _ => 0) (Some (stamp_bytes (mk_stamp 42))) None (Some 5%positive)
       None 0).

End Examples.

(** ** Further observations *)

(** The durations of the sleeps recorded in a trace, most recent first. *)
Fixpoint slept (tr : list event) : list Z :=
  match tr with
  | [] => []
  | EvMsleep ms :: tr' => ms :: slept tr'
  | _ :: tr' => slept tr'
  end.

(** Number of unlocks of a mutex that was not held recorded in a trace. *)
Fixpoint bad_unlocks (tr : list event) : nat :=
  match tr with
  | [] => 0
  | EvUnlockUnheld :: tr' => S (bad_unlocks tr')
  | _ :: tr' => bad_unlocks tr'
  end.

(** Whether the recovery worker, once the cache directory resolves, takes
    its fallback: the open fails, the read fails, or a ticker is
    registered and reads less than the stamp the read leaves in memory. *)
Definition recovery_rejects (s : state) : bool :=
  match open_err s, tickstamp_file s with
  | Some _, _ => true
  | None, None => true
  | None, Some c =>
      match read_err s, g_ticker_fn s with
      | Some _, _ => true
      | None, None => false
      | None, Some f =>
          to_long (to_ulong (f (ticker_calls s)))
            <? epoch (stamp_after_read c (g_stamp s))
      end
  end.

(** What the persist worker leaves in the file once the cache directory
    resolves: nothing new when the open fails, an empty file when the
    write fails after the truncating open, the image of the live stamp
    otherwise. *)
Definition file_after_persist (s : state) : option (list Z) :=
  match open_err s, write_err s with
  | Some _, _ => tickstamp_file s
  | None, Some _ => Some []
  | None, None => Some (stamp_bytes (g_stamp s))
  end.

Module MoreExamples.
Import Examples.

(** A live epoch of 42: one stamp against reference tick 58. *)
Definition s_live : state := exec (ts_stamp 58) s_fresh.

(** The state the persist worker leaves from [s_live]. *)
Definition s_persisted : state :=
  match ts_write_stamp 1 WriteWork s_live with
  | Some (_, sw) => sw
  | None => s_live
  end.

(** A fresh instance booted on the file left behind. *)
Definition s_reboot : state := booted (tickstamp_file s_persisted).

(** A module without ticker, on a file holding an epoch of 10^6. *)
Definition s_no_ticker : state :=
  exec (ts_init None)
    (boot (fun _ => 0) (Some (stamp_bytes (mk_stamp 1000000))) None None
       None 0).

(** A cache directory that resolves at the third poll. *)
Definition s_slow_mount : state :=
  exec (ts_init (Some ticker100))
    (boot (fun n => if (n <? 2)%nat then - ENOENT else 0) None None None
       None 0).

(** A read work item with a budget of three polls, and a directory that
    never resolves. *)
Definition s_never_mounts : state :=
  set_read_work (mk_work false 3 1000)
    (exec (ts_init (Some ticker100))
       (boot (fun _ => - ENOENT) None None None None 0)).

(** The state in which the wait from [s_never_mounts] gives up. *)
Definition s_gave_up : state :=
  match wait_vfsmount 4 (Some TS_DIR) 1000 3 s_never_mounts with
  | Some (_, s') => s'
  | None => s_never_mounts
  end.

(** The state the recovery worker leaves from [s_never_mounts]. *)
Definition s_recovered_unmounted : state :=
  match ts_read_stamp 4 ReadWork s_never_mounts with
  | Some (_, sf) => sf
  | None => s_never_mounts
  end.

(** A record with an epoch of 5 under a ticker that reads 2^63. *)
Definition s_big_ticker : state :=
  exec (ts_init (Some (fun _ => 2 ^ 63)))
    (boot (fun _ => 0) (Some (stamp_bytes (mk_stamp 5))) None None None 0).

(** A write that fails with [ENOSPC] over an existing record. *)
Definition s_write_error : state :=
  exec (ts_init (Some ticker100))
    (boot (fun _ => 0) (Some (stamp_bytes (mk_stamp 42))) None None
       (Some 28%positive) 0).

End MoreExamples.

(** * Facts about the machine integers and the record image *)

Section MachIntFacts.

Lemma ULONG_MOD_pos : 0 < ULONG_MOD.
Proof. reflexivity. Qed.

Lemma to_long_range (z : Z) : in_long (to_long z).
Proof.
  unfold in_long, to_long, LONG_MIN, LONG_MAX, ULONG_MOD.
  pose proof (Z.mod_pos_bound (z + 2 ^ 63) (2 ^ 64) eq_refl). lia.
Qed.

Lemma to_long_id (z : Z) : in_long z -> to_long z = z.
Proof.
  unfold in_long, to_long, LONG_MIN, LONG_MAX, ULONG_MOD. intros H.
  rewrite Z.mod_small; lia.
Qed.

Lemma to_ulong_id (z : Z) : in_ulong z -> to_ulong z = z.
Proof.
  unfold in_ulong, to_ulong, ULONG_MAX, ULONG_MOD. intros H.
  apply Z.mod_small; lia.
Qed.

(** Two integers congruent modulo 2^64 have the same [long] reading. *)
Lemma to_long_congr (a b : Z) :
  a mod ULONG_MOD = b mod ULONG_MOD -> to_long a = to_long b.
Proof.
  unfold to_long. intros H.
  rewrite (Z.add_mod a), (Z.add_mod b), H by (unfold ULONG_MOD; lia).
  reflexivity.
Qed.

Lemma to_long_mod (z : Z) : to_long z mod ULONG_MOD = z mod ULONG_MOD.
Proof.
  unfold to_long.
  rewrite Zminus_mod, Z.mod_mod by (unfold ULONG_MOD; lia).
  rewrite <- Zminus_mod. f_equal. lia.
Qed.

Lemma to_long_to_ulong (z : Z) : to_long (to_ulong z) = to_long z.
Proof.
  apply to_long_congr. unfold to_ulong.
  apply Z.mod_mod. unfold ULONG_MOD; lia.
Qed.

Lemma to_long_add_l (a b : Z) : to_long (to_long a + b) = to_long (a + b).
Proof.
  apply to_long_congr.
  rewrite Z.add_mod, to_long_mod, <- Z.add_mod by (unfold ULONG_MOD; lia).
  reflexivity.
Qed.

Lemma to_long_add_r (a b : Z) : to_long (a + to_long b) = to_long (a + b).
Proof. rewrite Z.add_comm, to_long_add_l. f_equal. lia. Qed.

Lemma to_long_add_to_ulong (a x : Z) :
  to_long (a + to_ulong x) = to_long (a + x).
Proof.
  apply to_long_congr. unfold to_ulong.
  apply Z.add_mod_idemp_r. unfold ULONG_MOD; lia.
Qed.

Lemma to_long_idem (z : Z) : to_long (to_long z) = to_long z.
Proof. apply to_long_id, to_long_range. Qed.

Lemma le_bytes_length (n : nat) (u : Z) : length (le_bytes n u) = n.
Proof. revert u. induction n; intros u; simpl; congruence. Qed.

Lemma le_value_bytes (n : nat) (u : Z) :
  le_value (le_bytes n u) = u mod 256 ^ Z.of_nat n.
Proof.
  revert u. induction n as [|n IH]; intros u.
  - simpl. now rewrite Z.mod_1_r.
  - cbn [le_bytes le_value]. rewrite IH, Z.mod_mod by lia.
    rewrite Nat2Z.inj_succ, Z.pow_succ_r by lia.
    rewrite (Z.rem_mul_r u 256 (256 ^ Z.of_nat n)) by lia. reflexivity.
Qed.

(** Decoding the image of a stamp gives the stamp back. *)
Lemma stamp_of_stamp_bytes (st : tick_stamp) :
  stamp_of_bytes (stamp_bytes st) = mk_stamp (to_long (epoch st)).
Proof.
  unfold stamp_of_bytes, stamp_bytes. rewrite le_value_bytes. f_equal.
  change (256 ^ Z.of_nat SIZEOF_STAMP) with ULONG_MOD.
  transitivity (to_long (to_ulong (epoch st))).
  - apply to_long_congr. unfold to_ulong.
    now rewrite !Z.mod_mod by (unfold ULONG_MOD; lia).
  - apply to_long_to_ulong.
Qed.

Lemma stamp_bytes_length (st : tick_stamp) :
  length (stamp_bytes st) = SIZEOF_STAMP.
Proof. apply le_bytes_length. Qed.

End MachIntFacts.

(** * The mount wait *)

Section MountWait.

Variables (dir : string) (interval : Z).

Lemma count_down_infinity : count_down (Some INFINITY) 1 = (true, Some INFINITY).
Proof. reflexivity. Qed.

Lemma count_down_finite (c : Z) :
  2 <= c < INFINITY -> count_down (Some c) 1 = (true, Some (c - 1)).
Proof.
  intros H. unfold count_down.
  replace (c =? 0) with false by (symmetry; apply Z.eqb_neq; lia).
  replace (c <? 1) with false by (symmetry; apply Z.ltb_ge; lia).
  replace (c =? INFINITY) with false by (symmetry; apply Z.eqb_neq; lia).
  cbn [orb]. unfold to_uint.
  rewrite Z.mod_small by (unfold INFINITY in H; lia).
  replace (c - 1 =? 0) with false by (symmetry; apply Z.eqb_neq; lia).
  reflexivity.
Qed.

Lemma count_down_covers (c : Z) (k : nat) :
  budget_covers c k ->
  exists c', count_down (Some c) 1 = (true, Some c') /\
             forall k', k = S k' -> budget_covers c' k'.
Proof.
  intros [-> | H].
  - exists INFINITY. split; [apply count_down_infinity | now left].
  - exists (c - 1). split; [apply count_down_finite; lia |].
    intros k' ->. right. lia.
Qed.

Lemma wait_loop_mounts (k : nat) :
  forall fuel count s,
    mounts_after s k -> budget_covers count k -> (k < fuel)%nat ->
    wait_loop fuel dir interval count s = Some (true, waited dir interval k s).
Proof.
  induction k as [|k IH]; intros fuel count s [Hfail Hok] Hb Hfuel;
    (destruct fuel as [|fuel]; [lia|]);
    destruct (count_down_covers _ _ Hb) as (c' & Hcd & Hb');
    cbn [wait_loop]; rewrite Hcd; unfold kern_path.
  - rewrite Nat.add_0_r in Hok. rewrite Hok. cbn [Z.eqb].
    unfold waited. rewrite Nat.add_0_r. reflexivity.
  - assert (H0 : lookup_ret s (path_lookups s) <> 0).
    { specialize (Hfail 0%nat). rewrite Nat.add_0_r in Hfail.
      apply Hfail. lia. }
    apply Z.eqb_neq in H0. rewrite H0.
    rewrite IH; [| | now apply Hb' | lia].
    + f_equal. f_equal. unfold waited, with_lookups, exec, msleep, modify.
      cbn. rewrite Nat.add_succ_r, <- app_assoc. reflexivity.
    + split; cbn.
      * intros j Hj. rewrite <- Nat.add_succ_r. apply Hfail. lia.
      * now rewrite <- Nat.add_succ_r.
Qed.

(** A null path, an empty budget and a budget of one all give [false]
    without a single lookup. *)
Lemma wait_vfsmount_null (fuel : nat) (count : Z) (s : state) :
  wait_vfsmount fuel None interval count s = Some (false, s).
Proof. reflexivity. Qed.


Lemma wait_vfsmount_covers (k fuel : nat) (count : Z) (s : state) :
  mounts_after s k -> budget_covers count k -> (k < fuel)%nat ->
  wait_vfsmount fuel (Some dir) interval count s = Some (true, waited dir interval k s).
Proof. apply wait_loop_mounts. Qed.

(** With a finite budget the loop ends within [count] iterations. *)
Lemma wait_loop_total (n : nat) :
  forall fuel count s,
    0 <= count < INFINITY -> count <= Z.of_nat n -> (n < fuel)%nat ->
    exists r, wait_loop fuel dir interval count s = Some r.
Proof.
  induction n as [|n IH]; intros fuel count s Hc Hn Hfuel;
    (destruct fuel as [|fuel]; [lia|]); cbn [wait_loop].
  - replace count with 0 by lia. cbn. eauto.
  - destruct (Z.le_gt_cases count 1) as [Hle | Hgt].
    + assert (count = 0 \/ count = 1) as [-> | ->] by lia; cbn; eauto.
    + rewrite count_down_finite by lia.
      destruct (kern_path dir s) as [retval s1].
      destruct (retval =? 0); [eauto |].
      apply IH; lia.
Qed.

(** The wait returns [false] only with a finite budget, and then every
    lookup it made has failed. *)
Lemma wait_loop_false (fuel : nat) :
  forall count s s',
    0 <= count <= INFINITY ->
    wait_loop fuel dir interval count s = Some (false, s') ->
    count <> INFINITY /\
    (path_lookups s <= path_lookups s')%nat /\
    lookup_ret s' = lookup_ret s /\
    forall j, (path_lookups s <= j < path_lookups s')%nat ->
              lookup_ret s j <> 0.
Proof.
  induction fuel as [|fuel IH]; intros count s s' Hc H; [discriminate|].
  cbn [wait_loop] in H.
  destruct (Z.eq_dec count INFINITY) as [-> | Hne].
  - rewrite count_down_infinity in H. unfold kern_path in H.
    destruct (lookup_ret s (path_lookups s) =? 0); [discriminate|].
    apply IH in H; [tauto | unfold INFINITY, UINT_MOD; lia].
  - destruct (Z.le_gt_cases count 1) as [Hle | Hgt].
    + assert (count = 0 \/ count = 1) as [-> | ->] by lia; cbn in H;
        injection H as <-; repeat split; auto; lia.
    + rewrite count_down_finite in H by lia. unfold kern_path in H.
      destruct (lookup_ret s (path_lookups s) =? 0) eqn:E; [discriminate|].
      apply IH in H; [| lia]. cbn in H.
      destruct H as (_ & Hle & Hlr & Hall).
      repeat split; auto; [lia |].
      intros j Hj. destruct (Nat.eq_dec j (path_lookups s)) as [-> | Hj'].
      * now apply Z.eqb_neq.
      * apply Hall. lia.
Qed.

End MountWait.

(** * The recovery worker, path by path *)

Lemma neg_ltb_0 (e : positive) : (Z.neg e <? 0) = true.
Proof. reflexivity. Qed.

Lemma of_nat_ltb_0 (n : nat) : (Z.of_nat n <? 0) = false.
Proof. apply Z.ltb_ge. lia. Qed.

Lemma TS_PATH_eqb : String.eqb TS_PATH TS_PATH = true.
Proof. reflexivity. Qed.

Ltac fields :=
cbn [g_stamp g_ticker_fn ts_write_work ts_write_fn ts_read_work ts_read_fn
     init_done mutex_held addr_limit ticker_calls path_lookups lookup_ret
     tickstamp_file open_err read_err write_err close_ret trace
     epoch pending retrigger_count trigger_interval f_path f_pos] in *.

Ltac ts_step :=
cbv beta delta
  [ts_read_stamp_mounted ts_read_stamp_exit ts_write_stamp_mounted
   ts_write_stamp_exit ts_open ts_close ts_read ts_write fs_set
   fs_restore get_fs set_fs get_ds filp_open filp_close vfs_read
   vfs_write copy_out printk mutex_lock mutex_unlock msleep call_ticker
   get_stamp ts_stamp ts_set ts_work_run schedule_work
   bind ret modify gets exec eval];
cbn -[firstn stamp_of_bytes stamp_bytes to_long to_ulong
      SIZEOF_STAMP length Z.gtb Z.ltb Z.eqb String.eqb TS_PATH TS_DIR
      EIO EINVAL ENOENT EFAULT Z.add Z.sub Z.opp Z.of_nat];
rewrite ?TS_PATH_eqb, ?of_nat_ltb_0, ?neg_ltb_0.

Ltac ts_run := repeat progress ts_step.

(** As [ts_step], up to the label [_exit]. *)
Ltac ts_pre1 :=
cbv beta delta
  [ts_read_stamp_mounted ts_write_stamp_mounted
   ts_open ts_read ts_write fs_set
   fs_restore get_fs set_fs get_ds filp_open vfs_read
   vfs_write copy_out printk mutex_lock call_ticker
   get_stamp bind ret modify gets exec eval];
cbn -[firstn stamp_of_bytes stamp_bytes to_long to_ulong
      SIZEOF_STAMP length Z.gtb Z.ltb Z.eqb String.eqb TS_PATH TS_DIR
      EIO EINVAL ENOENT EFAULT Z.add Z.sub Z.opp Z.of_nat
      ts_read_stamp_exit ts_write_stamp_exit];
rewrite ?TS_PATH_eqb, ?of_nat_ltb_0, ?neg_ltb_0.

Ltac ts_pre := repeat progress ts_pre1.

Section Recovery.

Lemma persist_requests_app (a b : list event) :
  persist_requests (a ++ b) = (persist_requests a + persist_requests b)%nat.
Proof.
  induction a as [|e a IH]; [reflexivity|].
  destruct e as [| | | | | | |[]| | |]; cbn; rewrite IH; reflexivity.
Qed.

Lemma persist_requests_poll (dir : string) (i : Z) (k : nat) :
  forall lr n, persist_requests (poll_events dir i k lr n) = 0%nat.
Proof.
  induction k as [|k IH]; intros lr n; [reflexivity|].
  cbn [poll_events]. rewrite persist_requests_app, IH. reflexivity.
Qed.

Lemma ts_stamp_g_stamp (tick : Z) (s : state) :
  g_stamp (exec (ts_stamp tick) s)
  = stamped tick (g_ticker_fn s) (ticker_calls s) (g_stamp s).
Proof. destruct s as [? [f|] ? ? ? ? ? ? ? ? ? ? ? ? ? ? ? ?]; reflexivity. Qed.

Lemma ts_stamp_ticker_calls (tick : Z) (s : state) :
  ticker_calls (exec (ts_stamp tick) s)
  = match g_ticker_fn s with
    | Some _ => S (ticker_calls s)
    | None => ticker_calls s
    end.
Proof. destruct s as [? [f|] ? ? ? ? ? ? ? ? ? ? ? ? ? ? ? ?]; reflexivity. Qed.

(** The fallback of [ts_read_stamp]: what the code after [_exit] does
    with a negative [size]. *)
Lemma exit_fallback (tsfp : option file) (size tick : Z) (s : state) :
  size < 0 ->
  let sf := exec (ts_read_stamp_exit tsfp size tick) s in
  g_stamp sf = stamped tick (g_ticker_fn s) (ticker_calls s) (g_stamp s) /\
  ticker_calls sf
    = match g_ticker_fn s with
      | Some _ => S (ticker_calls s)
      | None => ticker_calls s
      end /\
  pending (ts_write_work sf) = true /\
  persist_requests (trace sf) = S (persist_requests (trace s)) /\
  tickstamp_file sf = tickstamp_file s.
Proof.
  intros Hneg. apply Z.ltb_lt in Hneg.
  destruct s as [g fn ww ? ? ? ? [|] ? ? ? ? ? ? ? ? cr ?].
  all: destruct tsfp as [fp|]; ts_run; rewrite ?Hneg;
    try destruct (cr =? 0); destruct fn as [f|]; destruct ww as [[|] ? ?];
    ts_run; repeat split.
Qed.

(** The exit with a non-negative [size]: the handle is closed, the
    mutex released, and nothing else happens. *)
Lemma exit_accept (tsfp : option file) (size tick : Z) (s : state) :
  0 <= size ->
  let sf := exec (ts_read_stamp_exit tsfp size tick) s in
  g_stamp sf = g_stamp s /\
  ticker_calls sf = ticker_calls s /\
  ts_write_work sf = ts_write_work s /\
  persist_requests (trace sf) = persist_requests (trace s) /\
  tickstamp_file sf = tickstamp_file s.
Proof.
  intros Hpos. apply Z.ltb_ge in Hpos.
  destruct s as [g fn ww ? ? ? ? [|] ? ? ? ? ? ? ? ? cr ?].
  all: destruct tsfp as [fp|]; ts_run; rewrite ?Hpos;
    try destruct (cr =? 0); ts_run; repeat split.
Qed.


Lemma mounted_open_fails (s : state) :
  open_fails s ->
  exists s_mid,
    exec ts_read_stamp_mounted s
    = exec (ts_read_stamp_exit None (- EIO) 0) s_mid /\
    at_exit s s_mid (g_stamp s) (ticker_calls s).
Proof.
  intros Hfail.
  destruct s as [g fn ww ? ? ? ? [|] ? ? ? ? fl oe ? ? cr ?].
  all: unfold open_fails in Hfail; fields.
  all: destruct oe as [e|]; [| destruct fl as [c|]; [now destruct Hfail |]];
    ts_pre; eexists; (split; [reflexivity|]); repeat split; reflexivity.
Qed.

Lemma mounted_read_error (s : state) (c : list Z) (e : positive) :
  open_err s = None -> tickstamp_file s = Some c -> read_err s = Some e ->
  exists s_mid,
    exec ts_read_stamp_mounted s
    = exec (ts_read_stamp_exit (Some (mk_file TS_PATH 0)) (Z.neg e) 0) s_mid
    /\ at_exit s s_mid (g_stamp s) (ticker_calls s).
Proof.
  intros Ho Hf Hr.
  destruct s as [g fn ww ? ? ? ? [|] ? ? ? ? fl oe ? ? cr ?]; fields; subst.
  all: ts_pre. all: eexists; (split; [reflexivity|]); repeat split; reflexivity.
Qed.

Lemma mounted_no_ticker (s : state) (c : list Z) :
  open_err s = None -> tickstamp_file s = Some c -> read_err s = None ->
  g_ticker_fn s = None ->
  exists s_mid,
    exec ts_read_stamp_mounted s
    = exec (ts_read_stamp_exit (Some (mk_file TS_PATH 0))
              (Z.of_nat (length (firstn SIZEOF_STAMP c))) 0) s_mid /\
    at_exit s s_mid (stamp_after_read c (g_stamp s)) (ticker_calls s).
Proof.
  intros Ho Hf Hr Ht.
  destruct s as [g fn ww ? ? ? ? [|] ? ? ? ? fl oe ? ? cr ?]; fields; subst.
  all: ts_pre. all: eexists; (split; [reflexivity|]); repeat split; reflexivity.
Qed.

Lemma mounted_accept (s : state) (c : list Z) (f : ticker_func) :
  open_err s = None -> tickstamp_file s = Some c -> read_err s = None ->
  g_ticker_fn s = Some f ->
  epoch (stamp_after_read c (g_stamp s))
    <= to_long (to_ulong (f (ticker_calls s))) ->
  exists s_mid,
    exec ts_read_stamp_mounted s
    = exec (ts_read_stamp_exit (Some (mk_file TS_PATH 0))
              (Z.of_nat (length (firstn SIZEOF_STAMP c)))
              (to_ulong (f (ticker_calls s)))) s_mid /\
    at_exit s s_mid (stamp_after_read c (g_stamp s)) (S (ticker_calls s)).
Proof.
  intros Ho Hf Hr Ht Hle.
  destruct s as [g fn ww ? ? ? ? [|] ? ? ? ? fl oe ? ? cr ?]; fields; subst.
  all: ts_pre. all: fold (stamp_after_read c g).
  all: rewrite Z.gtb_ltb.
  all: replace (_ <? _) with false by (symmetry; apply Z.ltb_ge; lia).
  all: eexists; (split; [reflexivity|]); repeat split; reflexivity.
Qed.

Lemma mounted_regress (s : state) (c : list Z) (f : ticker_func) :
  open_err s = None -> tickstamp_file s = Some c -> read_err s = None ->
  g_ticker_fn s = Some f ->
  to_long (to_ulong (f (ticker_calls s)))
    < epoch (stamp_after_read c (g_stamp s)) ->
  exists s_mid,
    exec ts_read_stamp_mounted s
    = exec (ts_read_stamp_exit (Some (mk_file TS_PATH 0)) (- EINVAL)
              (to_ulong (f (ticker_calls s)))) s_mid /\
    at_exit s s_mid (mk_stamp 0) (S (ticker_calls s)).
Proof.
  intros Ho Hf Hr Ht Hlt.
  destruct s as [g fn ww ? ? ? ? [|] ? ? ? ? fl oe ? ? cr ?]; fields; subst.
  all: ts_pre. all: fold (stamp_after_read c g).
  all: rewrite Z.gtb_ltb.
  all: replace (_ <? _) with true by (symmetry; apply Z.ltb_lt; lia).
  all: ts_pre. all: eexists; (split; [reflexivity|]); repeat split; reflexivity.
Qed.

End Recovery.

(** * The recovery worker as a whole *)

Section RecoveryRuns.

Lemma run_unit (m : M unit) (s : state) : m s = (tt, exec m s).
Proof. unfold exec. destruct (m s) as [[] s']. reflexivity. Qed.

Lemma persist_requests_waited (dir : string) (i : Z) (k : nat) (s : state) :
  persist_requests (trace (waited dir i k s)) = persist_requests (trace s).
Proof.
  unfold waited, with_lookups. cbn [trace persist_requests].
  rewrite persist_requests_app, persist_requests_poll. reflexivity.
Qed.

(** Once the path resolves, the worker runs its body in the state the
    wait leaves. *)
Lemma ts_read_stamp_mounts (s : state) (k fuel : nat) :
  mounts_after s k ->
  budget_covers (retrigger_count (ts_read_work s)) k ->
  (k < fuel)%nat ->
  ts_read_stamp fuel ReadWork s
  = Some (tt, exec ts_read_stamp_mounted
                (waited TS_DIR (trigger_interval (ts_read_work s)) k s)).
Proof.
  intros Hm Hb Hfuel. unfold ts_read_stamp. cbn [get_work].
  rewrite (wait_vfsmount_covers _ _ _ _ _ _ Hm Hb Hfuel).
  now rewrite run_unit.
Qed.

(** Whatever the wait returns, it only touches the lookup counter and the
    trace, and requests no persist. *)
Lemma wait_loop_frame (dir : string) (i : Z) (fuel : nat) :
  forall count s r s1,
    wait_loop fuel dir i count s = Some (r, s1) ->
    exists n tr, s1 = with_lookups n tr s /\
                 persist_requests tr = persist_requests (trace s).
Proof.
  induction fuel as [|fuel IH]; intros count s r s1 H; [discriminate|].
  cbn [wait_loop] in H.
  destruct (count_down (Some count) 1) as [[|] v].
  - unfold kern_path in H.
    destruct (lookup_ret s (path_lookups s) =? 0).
    + injection H as <- <-. do 2 eexists. split; [destruct s; reflexivity|].
      reflexivity.
    + apply IH in H. destruct H as (n & tr & -> & Hp).
      exists n, tr. split; [destruct s; reflexivity | exact Hp].
  - injection H as <- <-. exists (path_lookups s), (trace s).
    split; [destruct s; reflexivity | reflexivity].
Qed.

(** A file that holds a whole record replaces the whole stamp. *)
Lemma stamp_after_full_read (c : list Z) (g : tick_stamp) :
  (SIZEOF_STAMP <= length c)%nat ->
  stamp_after_read c g = stamp_of_bytes (firstn SIZEOF_STAMP c).
Proof.
  intros Hlen. unfold stamp_after_read.
  rewrite length_firstn, Nat.min_l by exact Hlen.
  rewrite skipn_all2 by (rewrite stamp_bytes_length; lia).
  now rewrite app_nil_r.
Qed.

(** The record [ts_write_stamp] leaves behind decodes to the epoch it
    was written from. *)
Lemma stamp_after_read_image (e : Z) (g : tick_stamp) :
  in_long e ->
  stamp_after_read (stamp_bytes (mk_stamp e)) g = mk_stamp e.
Proof.
  intros He. rewrite stamp_after_full_read by now rewrite stamp_bytes_length.
  rewrite <- (stamp_bytes_length (mk_stamp e)), firstn_all.
  rewrite stamp_of_stamp_bytes. cbn [epoch]. now rewrite to_long_id.
Qed.

End RecoveryRuns.

(** Fields of the state the wait leaves. *)
Ltac waited_fields :=
  unfold waited, with_lookups;
  cbn [g_stamp g_ticker_fn ts_write_work ts_read_work ticker_calls
       tickstamp_file open_err read_err write_err close_ret trace].

Section ExitOutcomes.

Variables (s sm : state) (g : tick_stamp) (n : nat).
Hypothesis Hexit : at_exit s sm g n.

(** From [_exit] with a negative [size]: one [ts_stamp(tick)] on the
    stamp reached, and a request to persist. *)
Lemma fallback_outcome (tsfp : option file) (size tick : Z) :
  size < 0 ->
  let sf := exec (ts_read_stamp_exit tsfp size tick) sm in
  g_stamp sf = stamped tick (g_ticker_fn s) n g /\
  ticker_calls sf
    = match g_ticker_fn s with Some _ => S n | None => n end /\
  pending (ts_write_work sf) = true /\
  persist_requests (trace sf) = S (persist_requests (trace s)) /\
  tickstamp_file sf = tickstamp_file s.
Proof.
  intros Hneg sf.
  destruct Hexit as (Hg & Hfn & Htc & _ & Hp & Hfile).
  destruct (exit_fallback tsfp size tick sm Hneg) as (Hg' & Htc' & Hw' & Hp' & Hf').
  fold sf in Hg', Htc', Hw', Hp', Hf'.
  rewrite Hg', Htc', Hp', Hf', Hg, Hfn, Htc, Hp, Hfile. auto.
Qed.

(** From [_exit] with a non-negative [size]: nothing more happens. *)
Lemma accept_outcome (tsfp : option file) (size tick : Z) :
  0 <= size ->
  let sf := exec (ts_read_stamp_exit tsfp size tick) sm in
  g_stamp sf = g /\
  ticker_calls sf = n /\
  ts_write_work sf = ts_write_work s /\
  persist_requests (trace sf) = persist_requests (trace s) /\
  tickstamp_file sf = tickstamp_file s.
Proof.
  intros Hpos sf.
  destruct Hexit as (Hg & Hfn & Htc & Hw & Hp & Hfile).
  destruct (exit_accept tsfp size tick sm Hpos) as (Hg' & Htc' & Hw' & Hp' & Hf').
  fold sf in Hg', Htc', Hw', Hp', Hf'.
  rewrite Hg', Htc', Hw', Hp', Hf'. auto.
Qed.

End ExitOutcomes.

Lemma at_exit_with_lookups (s sm : state) (g : tick_stamp) (n m : nat)
    (tr : list event) :
  persist_requests tr = persist_requests (trace s) ->
  at_exit (with_lookups m tr s) sm g n -> at_exit s sm g n.
Proof.
  intros Hp (Hg & Hfn & Htc & Hw & Hp' & Hfile).
  cbn [with_lookups g_ticker_fn ts_write_work trace tickstamp_file] in *.
  repeat split; auto. congruence.
Qed.

Lemma at_exit_waited (dir : string) (i : Z) (k : nat) (s sm : state)
    (g : tick_stamp) (n : nat) :
  at_exit (waited dir i k s) sm g n -> at_exit s sm g n.
Proof.
  apply at_exit_with_lookups. cbn [persist_requests].
  rewrite persist_requests_app, persist_requests_poll. reflexivity.
Qed.

(** * Recovery: the claims *)

Lemma at_exit_refl (s : state) : at_exit s s (g_stamp s) (ticker_calls s).
Proof. repeat split. Qed.

(** A read without error is accepted when the stamp it leaves in memory
    does not exceed the ticker: that stamp stays, no persist is
    requested.  The file may be shorter than a record. *)
Lemma recovery_accept_run (s : state) (k fuel : nat) (c : list Z)
    (f : ticker_func) :
  mounts_after s k ->
  budget_covers (retrigger_count (ts_read_work s)) k ->
  (k < fuel)%nat ->
  open_err s = None -> read_err s = None ->
  tickstamp_file s = Some c ->
  g_ticker_fn s = Some f ->
  epoch (stamp_after_read c (g_stamp s))
    <= to_long (to_ulong (f (ticker_calls s))) ->
  exists sf,
    ts_read_stamp fuel ReadWork s = Some (tt, sf) /\
    g_stamp sf = stamp_after_read c (g_stamp s) /\
    ticker_calls sf = S (ticker_calls s) /\
    ts_write_work sf = ts_write_work s /\
    persist_requests (trace sf) = persist_requests (trace s) /\
    tickstamp_file sf = tickstamp_file s.
Proof.
  intros Hm Hb Hfuel Ho Hr Hf Ht Hle.
  rewrite (ts_read_stamp_mounts s k fuel Hm Hb Hfuel).
  eexists. split; [reflexivity|].
  destruct (mounted_accept
              (waited TS_DIR (trigger_interval (ts_read_work s)) k s) c f)
    as (sm & -> & Hexit); try (waited_fields; assumption).
  apply at_exit_waited in Hexit. revert Hexit. waited_fields. intros Hexit.
  apply (accept_outcome _ _ _ _ Hexit). lia.
Qed.

(** The fallback run: the stamp reached at [_exit] gets one [ts_stamp],
    and the persist worker is queued. *)
Lemma recovery_regress_run (s : state) (k fuel : nat) (c : list Z)
    (f : ticker_func) :
  mounts_after s k ->
  budget_covers (retrigger_count (ts_read_work s)) k ->
  (k < fuel)%nat ->
  open_err s = None -> read_err s = None ->
  tickstamp_file s = Some c ->
  g_ticker_fn s = Some f ->
  to_long (to_ulong (f (ticker_calls s)))
    < epoch (stamp_after_read c (g_stamp s)) ->
  exists sf,
    ts_read_stamp fuel ReadWork s = Some (tt, sf) /\
    g_stamp sf
      = stamped (to_ulong (f (ticker_calls s))) (Some f)
          (S (ticker_calls s)) (mk_stamp 0) /\
    ticker_calls sf = S (S (ticker_calls s)) /\
    pending (ts_write_work sf) = true /\
    persist_requests (trace sf) = S (persist_requests (trace s)) /\
    tickstamp_file sf = tickstamp_file s.
Proof.
  intros Hm Hb Hfuel Ho Hr Hf Ht Hlt.
  rewrite (ts_read_stamp_mounts s k fuel Hm Hb Hfuel).
  eexists. split; [reflexivity|].
  destruct (mounted_regress
              (waited TS_DIR (trigger_interval (ts_read_work s)) k s) c f)
    as (sm & -> & Hexit); try (waited_fields; assumption).
  apply at_exit_waited in Hexit. revert Hexit. waited_fields. intros Hexit.
  pose proof (fallback_outcome _ _ _ _ Hexit (Some (mk_file TS_PATH 0))
                (- EINVAL) (to_ulong (f (ticker_calls s))) eq_refl) as H.
  rewrite Ht in H. exact H.
Qed.

Lemma recovery_no_open_run (s : state) (k fuel : nat) :
  mounts_after s k ->
  budget_covers (retrigger_count (ts_read_work s)) k ->
  (k < fuel)%nat ->
  open_fails s ->
  exists sf,
    ts_read_stamp fuel ReadWork s = Some (tt, sf) /\
    g_stamp sf = stamped 0 (g_ticker_fn s) (ticker_calls s) (g_stamp s) /\
    ticker_calls sf
      = match g_ticker_fn s with
        | Some _ => S (ticker_calls s)
        | None => ticker_calls s
        end /\
    pending (ts_write_work sf) = true /\
    persist_requests (trace sf) = S (persist_requests (trace s)) /\
    tickstamp_file sf = tickstamp_file s.
Proof.
  intros Hm Hb Hfuel Hfail.
  rewrite (ts_read_stamp_mounts s k fuel Hm Hb Hfuel).
  eexists. split; [reflexivity|].
  destruct (mounted_open_fails
              (waited TS_DIR (trigger_interval (ts_read_work s)) k s))
    as (sm & -> & Hexit); [exact Hfail|].
  apply at_exit_waited in Hexit. revert Hexit. waited_fields. intros Hexit.
  apply (fallback_outcome _ _ _ _ Hexit None (- EIO) 0 eq_refl).
Qed.

Lemma recovery_read_error_run (s : state) (k fuel : nat) (c : list Z)
    (e : positive) :
  mounts_after s k ->
  budget_covers (retrigger_count (ts_read_work s)) k ->
  (k < fuel)%nat ->
  open_err s = None -> tickstamp_file s = Some c -> read_err s = Some e ->
  exists sf,
    ts_read_stamp fuel ReadWork s = Some (tt, sf) /\
    g_stamp sf = stamped 0 (g_ticker_fn s) (ticker_calls s) (g_stamp s) /\
    ticker_calls sf
      = match g_ticker_fn s with
        | Some _ => S (ticker_calls s)
        | None => ticker_calls s
        end /\
    pending (ts_write_work sf) = true /\
    persist_requests (trace sf) = S (persist_requests (trace s)) /\
    tickstamp_file sf = tickstamp_file s.
Proof.
  intros Hm Hb Hfuel Ho Hf Hr.
  rewrite (ts_read_stamp_mounts s k fuel Hm Hb Hfuel).
  eexists. split; [reflexivity|].
  destruct (mounted_read_error
              (waited TS_DIR (trigger_interval (ts_read_work s)) k s) c e)
    as (sm & -> & Hexit); try (waited_fields; assumption).
  apply at_exit_waited in Hexit. revert Hexit. waited_fields. intros Hexit.
  apply (fallback_outcome _ _ _ _ Hexit (Some (mk_file TS_PATH 0))
           (Z.neg e) 0 eq_refl).
Qed.

(** C3 (amended).  A persisted record with epoch [E] that is opened and
    read in full while the ticker reading [T], converted to [long] as
    line 153 converts it, is at least [E], becomes the live epoch, and no
    persist is requested: the persist worker is left as it was and the
    ticker is read once, for the validation.  The run ends as soon as the
    cache directory resolves, here at the [k]-th poll. *)
Theorem recovery_round_trip (s : state) (k fuel : nat) (c : list Z)
    (f : ticker_func) (E : Z) :
  mounts_after s k ->
  budget_covers (retrigger_count (ts_read_work s)) k ->
  (k < fuel)%nat ->
  open_err s = None -> read_err s = None ->
  tickstamp_file s = Some c ->
  (SIZEOF_STAMP <= length c)%nat ->
  epoch (stamp_of_bytes (firstn SIZEOF_STAMP c)) = E ->
  g_ticker_fn s = Some f ->
  E <= to_long (to_ulong (f (ticker_calls s))) ->
  exists sf,
    ts_read_stamp fuel ReadWork s = Some (tt, sf) /\
    epoch (g_stamp sf) = E /\
    ts_write_work sf = ts_write_work s /\
    persist_requests (trace sf) = persist_requests (trace s) /\
    ticker_calls sf = S (ticker_calls s).
Proof.
  intros Hm Hb Hfuel Ho Hr Hf Hlen HE Ht HTE.
  destruct (recovery_accept_run s k fuel c f)
    as (sf & Hrun & Hg & Htc & Hw & Hp & _); auto.
  { now rewrite stamp_after_full_read, HE. }
  exists sf. rewrite Hg, stamp_after_full_read by exact Hlen. auto.
Qed.

(** C4. A persisted record with epoch [E] that is read in full while the
    ticker reads [T < E] is discarded: the live stamp is what one
    [ts_stamp(T)] makes of an epoch reset to 0, that is the next ticker
    reading minus [T]; the ticker is read once more, for that one stamp;
    and the persist worker is queued. *)
Theorem recovery_regression (s : state) (k fuel : nat) (c : list Z)
    (f : ticker_func) (E : Z) :
  mounts_after s k ->
  budget_covers (retrigger_count (ts_read_work s)) k ->
  (k < fuel)%nat ->
  open_err s = None -> read_err s = None ->
  tickstamp_file s = Some c ->
  (SIZEOF_STAMP <= length c)%nat ->
  epoch (stamp_of_bytes (firstn SIZEOF_STAMP c)) = E ->
  g_ticker_fn s = Some f ->
  to_long (to_ulong (f (ticker_calls s))) < E ->
  let T := to_ulong (f (ticker_calls s)) in
  exists sf,
    ts_read_stamp fuel ReadWork s = Some (tt, sf) /\
    g_stamp sf
      = g_stamp (exec (ts_stamp T)
                   (set_stamp (mk_stamp 0)
                      (set_ticker_calls (S (ticker_calls s)) s))) /\
    epoch (g_stamp sf) = to_long (to_ulong (f (S (ticker_calls s))) - T) /\
    ticker_calls sf = S (S (ticker_calls s)) /\
    pending (ts_write_work sf) = true /\
    persist_requests (trace sf) = S (persist_requests (trace s)).
Proof.
  intros Hm Hb Hfuel Ho Hr Hf Hlen HE Ht HTE T.
  destruct (recovery_regress_run s k fuel c f)
    as (sf & Hrun & Hg & Htc & Hw & Hp & _); auto.
  { now rewrite stamp_after_full_read, HE. }
  exists sf. rewrite ts_stamp_g_stamp, Hg.
  destruct s; cbn in Ht; subst. cbn.
  repeat split; auto.
  subst T. now rewrite to_long_idem, to_long_to_ulong.
Qed.

(** C5 (amended).  When the open of the backing path fails, recovery
    takes the fallback of the ticker-regression case, one [ts_stamp] and
    a queued persist, but with reference tick 0 and on the live stamp as
    it stands, which is not reset. *)
Theorem recovery_absent_store (s : state) (k fuel : nat) :
  mounts_after s k ->
  budget_covers (retrigger_count (ts_read_work s)) k ->
  (k < fuel)%nat ->
  open_fails s ->
  exists sf,
    ts_read_stamp fuel ReadWork s = Some (tt, sf) /\
    g_stamp sf = g_stamp (exec (ts_stamp 0) s) /\
    ticker_calls sf = ticker_calls (exec (ts_stamp 0) s) /\
    pending (ts_write_work sf) = true /\
    persist_requests (trace sf) = S (persist_requests (trace s)).
Proof.
  intros Hm Hb Hfuel Hfail.
  destruct (recovery_no_open_run s k fuel Hm Hb Hfuel Hfail)
    as (sf & Hrun & Hg & Htc & Hw & Hp & _).
  exists sf. rewrite ts_stamp_g_stamp, ts_stamp_ticker_calls. auto.
Qed.

(** C6 (amended).  A read that returns a negative result triggers the
    fallback: one [ts_stamp(0)] and a queued persist.  A read that
    returns no error is not a failure however few bytes it returns: the
    bytes read replace the start of the live stamp, and when that stamp
    does not exceed the ticker it is kept and no persist is requested. *)
Theorem recovery_read_result (s : state) (k fuel : nat) (c : list Z) :
  mounts_after s k ->
  budget_covers (retrigger_count (ts_read_work s)) k ->
  (k < fuel)%nat ->
  open_err s = None -> tickstamp_file s = Some c ->
  (forall e, read_err s = Some e ->
     exists sf,
       ts_read_stamp fuel ReadWork s = Some (tt, sf) /\
       g_stamp sf = g_stamp (exec (ts_stamp 0) s) /\
       pending (ts_write_work sf) = true /\
       persist_requests (trace sf) = S (persist_requests (trace s))) /\
  (forall f,
     read_err s = None -> g_ticker_fn s = Some f ->
     epoch (stamp_after_read c (g_stamp s))
       <= to_long (to_ulong (f (ticker_calls s))) ->
     exists sf,
       ts_read_stamp fuel ReadWork s = Some (tt, sf) /\
       g_stamp sf = stamp_after_read c (g_stamp s) /\
       ts_write_work sf = ts_write_work s /\
       persist_requests (trace sf) = persist_requests (trace s)).
Proof.
  intros Hm Hb Hfuel Ho Hf. split.
  - intros e Hr.
    destruct (recovery_read_error_run s k fuel c e)
      as (sf & Hrun & Hg & _ & Hw & Hp & _); auto.
    exists sf. rewrite ts_stamp_g_stamp. auto.
  - intros f Hr Ht Hle.
    destruct (recovery_accept_run s k fuel c f)
      as (sf & Hrun & Hg & _ & Hw & Hp & _); auto.
    exists sf. auto.
Qed.

(** C8 (amended).  After a recovery run that accepts what it read (a
    ticker is registered and the run requests no persist), the live epoch
    is at most the ticker reading taken for the validation, converted to
    [long]; it can be negative. *)
Theorem recovery_accepted_bound (s sf : state) (fuel : nat)
    (f : ticker_func) :
  ts_read_stamp fuel ReadWork s = Some (tt, sf) ->
  g_ticker_fn s = Some f ->
  persist_requests (trace sf) = persist_requests (trace s) ->
  epoch (g_stamp sf) <= to_long (to_ulong (f (ticker_calls s))).
Proof.
  intros Hrun Ht Hacc. unfold ts_read_stamp, wait_vfsmount in Hrun.
  cbn [get_work] in Hrun.
  destruct (wait_loop _ _ _ _ _) as [[r s1]|] eqn:Hwait; [|discriminate].
  apply wait_loop_frame in Hwait. destruct Hwait as (n & tr & -> & Htr).
  set (s1 := with_lookups n tr s) in *.
  assert (Hfallback :
    forall tsfp size tick sm g m,
      at_exit s1 sm g m ->
      sf = exec (ts_read_stamp_exit tsfp size tick) sm ->
      size < 0 -> False).
  { intros tsfp size tick sm g m Hexit -> Hneg.
    apply at_exit_with_lookups in Hexit; [|exact Htr].
    destruct (fallback_outcome _ _ _ _ Hexit tsfp size tick Hneg)
      as (_ & _ & _ & Hp & _). lia. }
  destruct r.
  - rewrite run_unit in Hrun. injection Hrun as <-.
    destruct (open_err s) as [oe|] eqn:Ho.
    { exfalso.
      destruct (mounted_open_fails s1) as (sm & Heq & Hexit).
      { left. subst s1. cbn. rewrite Ho. discriminate. }
      exact (Hfallback _ _ _ _ _ _ Hexit Heq eq_refl). }
    destruct (tickstamp_file s) as [c|] eqn:Hf.
    2:{ exfalso.
        destruct (mounted_open_fails s1) as (sm & Heq & Hexit).
        { right. subst s1. cbn. exact Hf. }
        exact (Hfallback _ _ _ _ _ _ Hexit Heq eq_refl). }
    destruct (read_err s) as [e|] eqn:Hr.
    { exfalso.
      destruct (mounted_read_error s1 c e) as (sm & Heq & Hexit); auto.
      exact (Hfallback _ _ _ _ _ _ Hexit Heq eq_refl). }
    destruct (Z.le_gt_cases (epoch (stamp_after_read c (g_stamp s)))
                (to_long (to_ulong (f (ticker_calls s))))) as [Hle | Hgt].
    + destruct (mounted_accept s1 c f) as (sm & Heq & Hexit); auto.
      rewrite Heq.
      destruct (accept_outcome _ _ _ _ Hexit (Some (mk_file TS_PATH 0))
                  (Z.of_nat (length (firstn SIZEOF_STAMP c)))
                  (to_ulong (f (ticker_calls s1)))) as (-> & _); [lia|].
      exact Hle.
    + exfalso.
      destruct (mounted_regress s1 c f) as (sm & Heq & Hexit); auto.
      exact (Hfallback _ _ _ _ _ _ Hexit Heq eq_refl).
  - rewrite run_unit in Hrun. injection Hrun as <-.
    exfalso.
    exact (Hfallback None (- EIO) 0 s1 _ _ (at_exit_refl s1) eq_refl eq_refl).
Qed.

(** * The persist worker *)

Lemma ts_write_stamp_mounts (s : state) (k fuel : nat) :
  mounts_after s k ->
  budget_covers (retrigger_count (ts_write_work s)) k ->
  (k < fuel)%nat ->
  ts_write_stamp fuel WriteWork s
  = Some (tt, exec ts_write_stamp_mounted
                (waited TS_DIR (trigger_interval (ts_write_work s)) k s)).
Proof.
  intros Hm Hb Hfuel. unfold ts_write_stamp. cbn [get_work].
  rewrite (wait_vfsmount_covers _ _ _ _ _ _ Hm Hb Hfuel).
  now rewrite run_unit.
Qed.

(** A persist that can open and write the file leaves the image of the
    live stamp in it, and the live stamp as it was. *)
Lemma persist_run (s : state) (k fuel : nat) :
  mounts_after s k ->
  budget_covers (retrigger_count (ts_write_work s)) k ->
  (k < fuel)%nat ->
  open_err s = None -> write_err s = None ->
  exists sf,
    ts_write_stamp fuel WriteWork s = Some (tt, sf) /\
    tickstamp_file sf = Some (stamp_bytes (g_stamp s)) /\
    g_stamp sf = g_stamp s.
Proof.
  intros Hm Hb Hfuel Ho Hw.
  rewrite (ts_write_stamp_mounts s k fuel Hm Hb Hfuel).
  eexists. split; [reflexivity|].
  destruct s as [g fn ww ? ? ? ? [|] ? ? ? ? fl oe ? we cr ?]; fields; subst.
  all: unfold waited, with_lookups. all: fields.
  all: ts_run. all: destruct (cr =? 0); ts_run; cbn [firstn skipn app];
    rewrite <- (stamp_bytes_length g), firstn_all, app_nil_r; auto.
Qed.

(** X9.  Write, then recover on a fresh instance: when the persist worker
    has written the file and a recovery worker later reads it back with a
    ticker that is not behind the epoch, the live stamp of the second
    instance is the stamp the first one persisted, and no persist is
    requested. *)
Lemma persist_then_recover (s sw s' : state) (k fuel k' fuel' : nat)
    (f : ticker_func) :
  in_long (epoch (g_stamp s)) ->
  mounts_after s k ->
  budget_covers (retrigger_count (ts_write_work s)) k ->
  (k < fuel)%nat ->
  open_err s = None -> write_err s = None ->
  ts_write_stamp fuel WriteWork s = Some (tt, sw) ->
  tickstamp_file s' = tickstamp_file sw ->
  mounts_after s' k' ->
  budget_covers (retrigger_count (ts_read_work s')) k' ->
  (k' < fuel')%nat ->
  open_err s' = None -> read_err s' = None ->
  g_ticker_fn s' = Some f ->
  epoch (g_stamp s) <= to_long (to_ulong (f (ticker_calls s'))) ->
  exists sf,
    ts_read_stamp fuel' ReadWork s' = Some (tt, sf) /\
    g_stamp sf = g_stamp s /\
    persist_requests (trace sf) = persist_requests (trace s').
Proof.
  intros Hin Hm Hb Hfuel Ho Hw Hrun Hfile Hm' Hb' Hfuel' Ho' Hr' Ht' Hle.
  destruct (persist_run s k fuel Hm Hb Hfuel Ho Hw) as (sw' & Hrun' & Hf & _).
  rewrite Hrun in Hrun'. injection Hrun' as <-. rewrite Hf in Hfile.
  assert (Himg : stamp_after_read (stamp_bytes (g_stamp s)) (g_stamp s')
                 = g_stamp s).
  { destruct (g_stamp s) as [e]. now apply stamp_after_read_image. }
  destruct (recovery_accept_run s' k' fuel' _ f Hm' Hb' Hfuel' Ho' Hr' Hfile Ht')
    as (sf & Hrec & Hg & _ & _ & Hp & _).
  { now rewrite Himg. }
  exists sf. rewrite Hg, Himg. auto.
Qed.

(** * The public functions *)

(** C1.  [ts_set] does not return whether the submission succeeded but
    the opposite: it returns [true] exactly when [schedule_work] returned
    [false], that is when the persist worker was already pending and was
    not queued by this call. *)
Theorem ts_set_negates_submission (s : state) :
  eval ts_set s = negb (eval (schedule_work WriteWork) s) /\
  eval ts_set s = pending (ts_write_work s) /\
  pending (ts_write_work (exec ts_set s)) = true.
Proof.
  destruct s as [g fn [[|] ? ?] ? ? ? ? ? ? ? ? ? ? ? ? ? ? ?];
    repeat split.
Qed.

(** At the state [ts_init] leaves, the submission succeeds and [ts_set]
    returns [false]. *)
Lemma ts_set_after_init :
  eval (schedule_work WriteWork) Examples.s_fresh = true /\
  eval ts_set Examples.s_fresh = false /\
  pending (ts_write_work (exec ts_set Examples.s_fresh)) = true.
Proof. repeat split. Qed.

(** C10.  [ts_get] with a null pointer returns without storing anything
    and leaves every part of the state as it was. *)
Theorem ts_get_null (s : state) : ts_get None s = (None, s).
Proof. reflexivity. Qed.

(** With a pointer, [ts_get] stores the live epoch and changes nothing. *)
Lemma ts_get_some (old : Z) (s : state) :
  ts_get (Some old) s = (Some (epoch (g_stamp s)), s).
Proof. reflexivity. Qed.

(** ** Sequences of stamps *)

Lemma ts_stamp_registered (tick : Z) (f : ticker_func) (s : state) :
  g_ticker_fn s = Some f ->
  let s' := exec (ts_stamp tick) s in
  g_ticker_fn s' = Some f /\
  ticker_calls s' = S (ticker_calls s) /\
  epoch (g_stamp s')
    = to_long (epoch (g_stamp s)
               + to_long (to_ulong (to_ulong (f (ticker_calls s)) - tick))).
Proof.
  intros Ht. destruct s; cbn in Ht; subst. repeat split.
Qed.

Lemma ts_stamp_seq_cons (r : Z) (rs : list Z) (s : state) :
  exec (ts_stamp_seq (r :: rs)) s
  = exec (ts_stamp_seq rs) (exec (ts_stamp r) s).
Proof.
  cbn [ts_stamp_seq]. unfold exec at 1 3, bind.
  destruct (ts_stamp r s) as [[] s1]. reflexivity.
Qed.

(** C2 (amended).  After [ts_stamp(r1); ...; ts_stamp(rn)] with a ticker
    registered, the epoch is the initial epoch plus the sum of the ticker
    readings minus the reference ticks, reduced to the range of [long]
    modulo 2^64; it is that sum itself whenever the sum fits a [long]. *)
Theorem stamp_sequence (rs : list Z) (s : state) (f : ticker_func) :
  g_ticker_fn s = Some f ->
  in_long (epoch (g_stamp s)) ->
  let total := epoch (g_stamp s) + delta_sum f (ticker_calls s) rs in
  let s' := exec (ts_stamp_seq rs) s in
  epoch (g_stamp s') = to_long total /\
  (in_long total -> epoch (g_stamp s') = total).
Proof.
  intros Ht Hin total s'.
  assert (H : epoch (g_stamp s') = to_long total).
  { subst total s'. revert s Ht Hin.
    induction rs as [|r rs IH]; intros s Ht Hin.
    - cbn. rewrite Z.add_0_r. symmetry. now apply to_long_id.
    - rewrite ts_stamp_seq_cons.
      destruct (ts_stamp_registered r f s Ht) as (Ht1 & Hn1 & He1).
      rewrite IH; [| exact Ht1 | rewrite He1; apply to_long_range].
      rewrite He1, Hn1. cbn [delta_sum].
      rewrite to_long_add_l, Z.add_shuffle0, to_long_add_r,
        to_long_add_to_ulong.
      f_equal. lia. }
  split; [exact H|]. intros Hfit. rewrite H. now apply to_long_id.
Qed.

(** * The mount wait: the claims *)




(** * Calls of [ts_stamp] from several contexts *)

Section ThreadFacts.
Import Threads.

(** A call that runs alone does what [ts_stamp] does. *)
Lemma stamp_steps_alone (tick : Z) (s : state) :
  let cfg :=
    run_schedule [0; 0; 0]%nat
      (upd 0 (AtEntry tick) (fun _ => Returned), s) in
  fst cfg 0%nat = Returned /\ snd cfg = exec (ts_stamp tick) s.
Proof.
  destruct s as [g [f|] ? ? ? ? ? ? ? ? ? ? ? ? ? ? ? ?]; split; reflexivity.
Qed.

(** No step of a call looks at the mutex or touches it. *)
Lemma stamp_step_ignores_mutex (pc : stamp_pc) (b : bool) (s : state) :
  stamp_step pc (set_mutex_held b s)
  = (fst (stamp_step pc s), set_mutex_held b (snd (stamp_step pc s))).
Proof.
  destruct pc; destruct s as [g [f|] ? ? ? ? ? ? ? ? ? ? ? ? ? ? ? ?];
    reflexivity.
Qed.

Lemma upd_same (i : nat) (pc : stamp_pc) (p : pool) : upd i pc p i = pc.
Proof. unfold upd. now rewrite Nat.eqb_refl. Qed.

Lemma upd_other (i j : nat) (pc : stamp_pc) (p : pool) :
  j <> i -> upd i pc p j = p j.
Proof. intros H. unfold upd. apply Nat.eqb_neq in H. now rewrite H. Qed.

(** A call that has its delta and is not interleaved with adds it. *)
Lemma serial_step (p : pool) (s : state) (i : nat) (d : Z) :
  p i = AtAdd d ->
  run_schedule [i; i] (p, s)
  = (upd i Returned (upd i (AtStore d (epoch (g_stamp s))) p),
     set_stamp (mk_stamp (to_long (epoch (g_stamp s) + d))) s).
Proof.
  intros H. unfold run_schedule. cbn [fold_left].
  unfold sched_step at 2. cbn [fst snd]. rewrite H. cbn [stamp_step].
  unfold sched_step. cbn [fst snd]. rewrite upd_same. reflexivity.
Qed.

Lemma run_schedule_app (a b : list nat) (cfg : pool * state) :
  run_schedule (a ++ b) cfg = run_schedule b (run_schedule a cfg).
Proof. apply fold_left_app. Qed.

Lemma serial_run (d : nat -> Z) (order : list nat) :
  forall (p : pool) (s : state),
    NoDup order ->
    (forall i, In i order -> p i = AtAdd (d i)) ->
    in_long (epoch (g_stamp s)) ->
    let cfg := run_schedule (serial order) (p, s) in
    epoch (g_stamp (snd cfg))
      = to_long (epoch (g_stamp s) + Zsum (map d order)) /\
    (forall i, In i order -> fst cfg i = Returned) /\
    (forall i, ~ In i order -> fst cfg i = p i).
Proof.
  induction order as [|i rest IH]; intros p s Hnd Hp Hin.
  - cbn. rewrite Z.add_0_r, to_long_id by exact Hin. now repeat split.
  - inversion Hnd as [|? ? Hni Hnd']; subst.
    change (serial (i :: rest)) with ([i; i] ++ serial rest).
    cbv zeta. rewrite run_schedule_app, (serial_step p s i (d i)).
    2:{ apply Hp. now left. }
    set (p2 := upd i Returned _). set (s2 := set_stamp _ s).
    destruct (IH p2 s2 Hnd') as (He & Hret & Hkeep).
    { intros j Hj. unfold p2. rewrite !upd_other.
      - apply Hp. now right.
      - intros ->. contradiction.
      - intros ->. contradiction. }
    { apply to_long_range. }
    split; [|split].
    + rewrite He. unfold s2. cbn [set_stamp g_stamp epoch].
      rewrite to_long_add_l. apply f_equal.
      unfold Zsum. cbn [map fold_right]. lia.
    + intros j [<- | Hj].
      * rewrite Hkeep by exact Hni. apply upd_same.
      * now apply Hret.
    + intros j Hj. rewrite Hkeep.
      * unfold p2. rewrite !upd_other; [reflexivity | |];
          intros ->; apply Hj; now left.
      * intros Hj'. apply Hj. now right.
Qed.

Lemma Zsum_perm (a b : list Z) : Permutation a b -> Zsum a = Zsum b.
Proof.
  induction 1 as [| x a b _ IH | x y a | a b c _ IH1 _ IH2];
    unfold Zsum in *; cbn [fold_right] in *; lia.
Qed.

Lemma map_nth_seq (ds : list Z) :
  map (fun i => nth i ds 0) (seq 0 (length ds)) = ds.
Proof.
  induction ds as [|a ds IH]; [reflexivity|].
  cbn [length seq map nth]. f_equal.
  rewrite <- seq_shift, map_map. exact IH.
Qed.

Lemma spawn_at (ds : list Z) (i : nat) :
  (i < length ds)%nat -> spawn ds i = AtAdd (nth i ds 0).
Proof.
  intros H. unfold spawn. now rewrite (nth_error_nth' ds 0 H).
Qed.

(** C9 (amended).  [ts_stamp] takes no lock, so it is only when the N
    calls run one after the other, in whatever order, that the epoch ends
    as the previous value plus the sum of the deltas (reduced to the
    range of [long]), with every call returned. *)
Theorem stamp_calls_serialized (ds : list Z) (order : list nat)
    (s : state) :
  Permutation order (seq 0 (length ds)) ->
  in_long (epoch (g_stamp s)) ->
  let cfg := run_schedule (serial order) (spawn ds, s) in
  all_returned (length ds) (fst cfg) = true /\
  epoch (g_stamp (snd cfg)) = to_long (epoch (g_stamp s) + Zsum ds).
Proof.
  intros Hperm Hin cfg.
  assert (Hnd : NoDup order).
  { apply (Permutation_NoDup (Permutation_sym Hperm)), seq_NoDup. }
  assert (Hp : forall i, In i order -> spawn ds i = AtAdd (nth i ds 0)).
  { intros i Hi. apply spawn_at.
    apply (Permutation_in _ Hperm), in_seq in Hi. lia. }
  destruct (serial_run (fun i => nth i ds 0) order (spawn ds) s Hnd Hp Hin)
    as (He & Hret & _).
  fold cfg in He, Hret. split.
  - apply forallb_forall. intros i Hi.
    rewrite Hret; [reflexivity|].
    apply (Permutation_in _ (Permutation_sym Hperm)), Hi.
  - rewrite He. do 2 f_equal.
    rewrite (Zsum_perm _ _ (Permutation_map _ Hperm)).
    now rewrite map_nth_seq.
Qed.

End ThreadFacts.

(** * The claims on concrete runs *)

Section Runs.
Import Examples Threads.

Lemma mounted_at_once (s : state) :
  lookup_ret s (path_lookups s + 0) = 0 -> mounts_after s 0.
Proof. intros H. split; [intros j Hj; inversion Hj | exact H]. Qed.

(** C2, refuted as stated: the exact sum is not what the code computes
    once it leaves the range of [long].  With the ticker at 0,
    [ts_stamp(ULONG_MAX)] adds 1, not 0 - ULONG_MAX; and from an epoch of
    [LONG_MAX], a delta of 1 leads to [LONG_MIN]. *)
Lemma stamp_sequence_not_exact :
  (exists f,
     g_ticker_fn s_zero_ticker = Some f /\
     epoch (g_stamp (exec (ts_stamp_seq [ULONG_MAX]) s_zero_ticker)) = 1 /\
     epoch (g_stamp s_zero_ticker)
       + delta_sum f (ticker_calls s_zero_ticker) [ULONG_MAX]
       = - ULONG_MAX) /\
  (exists f,
     g_ticker_fn s_long_max = Some f /\
     epoch (g_stamp (exec (ts_stamp_seq [0]) s_long_max)) = LONG_MIN /\
     epoch (g_stamp s_long_max)
       + delta_sum f (ticker_calls s_long_max) [0]
       = LONG_MAX + 1).
Proof.
  split; [exists (fun _ => 0) | exists (fun _ => 1)];
    vm_compute; repeat split.
Qed.

Lemma stamp_sequence_witness :
  epoch (g_stamp (exec (ts_stamp_seq [10; 20]) s_fresh)) = 170.
Proof.
  apply (stamp_sequence [10; 20] s_fresh ticker100);
    [reflexivity | |]; vm_compute; split; discriminate.
Defined.

Lemma recovery_round_trip_witness :
  exists sf,
    ts_read_stamp 1 ReadWork (s_record 42) = Some (tt, sf) /\
    epoch (g_stamp sf) = 42 /\
    ts_write_work sf = ts_write_work (s_record 42) /\
    persist_requests (trace sf) = persist_requests (trace (s_record 42)) /\
    ticker_calls sf = S (ticker_calls (s_record 42)).
Proof.
  apply (recovery_round_trip (s_record 42) 0 1
           (stamp_bytes (mk_stamp 42)) ticker100 42);
    [ now apply mounted_at_once | now left | lia | reflexivity | reflexivity
    | reflexivity | rewrite stamp_bytes_length; apply le_n | reflexivity
    | reflexivity
    | vm_compute; discriminate ].
Defined.

Lemma recovery_regression_witness :
  exists sf,
    ts_read_stamp 1 ReadWork (s_record 200) = Some (tt, sf) /\
    g_stamp sf
      = g_stamp (exec (ts_stamp
                         (to_ulong
                            (ticker100 (ticker_calls (s_record 200)))))
                   (set_stamp (mk_stamp 0)
                      (set_ticker_calls (S (ticker_calls (s_record 200)))
                         (s_record 200)))) /\
    epoch (g_stamp sf)
      = to_long (to_ulong (ticker100 (S (ticker_calls (s_record 200))))
                 - to_ulong (ticker100 (ticker_calls (s_record 200)))) /\
    ticker_calls sf = S (S (ticker_calls (s_record 200))) /\
    pending (ts_write_work sf) = true /\
    persist_requests (trace sf)
      = S (persist_requests (trace (s_record 200))).
Proof.
  apply (recovery_regression (s_record 200) 0 1
           (stamp_bytes (mk_stamp 200)) ticker100 200);
    [ now apply mounted_at_once | now left | lia | reflexivity | reflexivity
    | reflexivity | rewrite stamp_bytes_length; apply le_n | reflexivity
    | reflexivity
    | vm_compute; reflexivity ].
Defined.

(** C5, refuted as stated: with the same ticker and the same module
    state, an absent store ends with an epoch of 100 and a regressed
    record with an epoch of 0. *)
Lemma absent_store_differs_from_regression :
  exists sa sr,
    ts_read_stamp 1 ReadWork s_fresh = Some (tt, sa) /\
    ts_read_stamp 1 ReadWork (s_record 200) = Some (tt, sr) /\
    epoch (g_stamp sa) = 100 /\
    epoch (g_stamp sr) = 0 /\
    g_stamp sa <> g_stamp sr.
Proof.
  do 2 eexists. split; [vm_compute; reflexivity|].
  split; [vm_compute; reflexivity|].
  vm_compute. repeat split. discriminate.
Qed.

Lemma recovery_absent_store_witness :
  exists sf,
    ts_read_stamp 1 ReadWork s_fresh = Some (tt, sf) /\
    g_stamp sf = g_stamp (exec (ts_stamp 0) s_fresh) /\
    ticker_calls sf = ticker_calls (exec (ts_stamp 0) s_fresh) /\
    pending (ts_write_work sf) = true /\
    persist_requests (trace sf) = S (persist_requests (trace s_fresh)).
Proof.
  apply (recovery_absent_store s_fresh 0 1).
  - now apply mounted_at_once.
  - now left.
  - lia.
  - now right.
Defined.

(** C6, refuted as stated: a read of a one-byte file returns 1, fewer
    than the 8 bytes of a record, and is not treated as a failure: the
    byte lands in the live stamp and no persist is requested. *)
Lemma short_read_not_a_failure :
  exists sf,
    ts_read_stamp 1 ReadWork s_short = Some (tt, sf) /\
    In (EvRead 1) (trace sf) /\
    1 < Z.of_nat SIZEOF_STAMP /\
    epoch (g_stamp sf) = 7 /\
    pending (ts_write_work sf) = false /\
    persist_requests (trace sf) = persist_requests (trace s_short).
Proof.
  eexists. split; [vm_compute; reflexivity|].
  vm_compute. repeat split; try discriminate. tauto.
Qed.

Lemma recovery_read_result_witness :
  exists sf,
    ts_read_stamp 1 ReadWork s_read_error = Some (tt, sf) /\
    g_stamp sf = g_stamp (exec (ts_stamp 0) s_read_error) /\
    pending (ts_write_work sf) = true /\
    persist_requests (trace sf)
      = S (persist_requests (trace s_read_error)).
Proof.
  apply (proj1 (recovery_read_result s_read_error 0 1
                  (stamp_bytes (mk_stamp 42))
                  (mounted_at_once s_read_error eq_refl)
                  (or_introl eq_refl) (Nat.lt_0_1) eq_refl eq_refl)
           5%positive).
  reflexivity.
Defined.

(** C8, refuted as stated: a record with epoch -5 passes the validation
    against a ticker at 100 and becomes the live epoch. *)
Lemma accepted_epoch_negative :
  exists sf,
    ts_read_stamp 1 ReadWork (s_record (-5)) = Some (tt, sf) /\
    g_ticker_fn (s_record (-5)) = Some ticker100 /\
    persist_requests (trace sf)
      = persist_requests (trace (s_record (-5))) /\
    epoch (g_stamp sf) = -5 /\
    ~ 0 <= epoch (g_stamp sf).
Proof.
  eexists. split; [vm_compute; reflexivity|].
  vm_compute. repeat split. intros H. now apply H.
Qed.

Lemma recovery_accepted_bound_witness :
  exists sf,
    ts_read_stamp 1 ReadWork (s_record 42) = Some (tt, sf) /\
    epoch (g_stamp sf) <= to_long (to_ulong (ticker100 0%nat)).
Proof.
  eexists. split; [vm_compute; reflexivity|].
  apply (recovery_accepted_bound (s_record 42) _ 1 ticker100);
    vm_compute; reflexivity.
Defined.

(** C9, refuted as stated: two calls with deltas 1 and 2 that both load
    the epoch before either stores it leave 2, not 3: the update of the
    first is lost. *)
Lemma stamp_update_lost :
  let cfg := run_schedule [0; 1; 0; 1]%nat (spawn [1; 2], s_fresh) in
  all_returned 2 (fst cfg) = true /\
  epoch (g_stamp (snd cfg)) = 2 /\
  epoch (g_stamp (snd cfg)) <> epoch (g_stamp s_fresh) + Zsum [1; 2].
Proof. vm_compute. repeat split. discriminate. Qed.

Lemma stamp_calls_serialized_witness :
  let cfg := run_schedule (serial [1; 0]%nat) (spawn [1; 2], s_fresh) in
  all_returned 2 (fst cfg) = true /\
  epoch (g_stamp (snd cfg)) = to_long (epoch (g_stamp s_fresh) + Zsum [1; 2]).
Proof.
  apply (stamp_calls_serialized [1; 2] [1; 0]%nat s_fresh).
  - apply perm_swap.
  - vm_compute. split; discriminate.
Defined.

End Runs.

(** * Further properties of the module *)

(** ** The retry budget *)

(** X1.  [count_down] never wraps the budget: on an [unsigned int]
    budget [v] and step [d] the new budget is [v] itself (refused, or the
    infinite budget) or [v - d], it never exceeds [v], and the answer is
    [true] only when the step fitted and something is left. *)
Theorem count_down_no_wrap (v d : Z) :
  0 <= v < UINT_MOD -> 0 <= d < UINT_MOD ->
  exists v',
    snd (count_down (Some v) d) = Some v' /\
    0 <= v' <= v /\
    (v' = v \/ (v' = v - d /\ v <> INFINITY)) /\
    (fst (count_down (Some v) d) = true -> v' <> 0 /\ d <= v) /\
    (v = INFINITY -> v' = INFINITY).
Proof.
  intros Hv Hd. unfold count_down.
  destruct (v =? 0) eqn:E0; [ apply Z.eqb_eq in E0 | apply Z.eqb_neq in E0 ];
    cbn [orb].
  { exists v. cbn. repeat split; try lia; try discriminate; auto. }
  destruct (v <? d) eqn:Ed; [ apply Z.ltb_lt in Ed | apply Z.ltb_ge in Ed ].
  { exists v. cbn. repeat split; try lia; try discriminate; auto. }
  destruct (v =? INFINITY) eqn:Ei;
    [ apply Z.eqb_eq in Ei | apply Z.eqb_neq in Ei ].
  { exists v. cbn. repeat split; try lia; auto. }
  exists (v - d). cbn [fst snd]. unfold to_uint.
  rewrite Z.mod_small by lia.
  repeat split; try lia; auto.
Qed.

Lemma count_down_no_wrap_witness :
  exists v',
    snd (count_down (Some 3) 1) = Some v' /\
    0 <= v' <= 3 /\
    (v' = 3 \/ (v' = 3 - 1 /\ 3 <> INFINITY)) /\
    (fst (count_down (Some 3) 1) = true -> v' <> 0 /\ 1 <= 3) /\
    (3 = INFINITY -> v' = INFINITY).
Proof.
  apply (count_down_no_wrap 3 1); vm_compute;
    (split; [discriminate | reflexivity]).
Defined.

Lemma wait_loop_finite (dir : string) (interval : Z) (n : nat) :
  forall fuel count s,
    0 <= count < INFINITY -> count <= Z.of_nat n -> (n < fuel)%nat ->
    exists r s',
      wait_loop fuel dir interval count s = Some (r, s') /\
      (path_lookups s <= path_lookups s')%nat /\
      Z.of_nat (path_lookups s' - path_lookups s) <= Z.max 0 (count - 1).
Proof.
  induction n as [|n IH]; intros fuel count s Hc Hn Hfuel;
    (destruct fuel as [|fuel]; [lia|]); cbn [wait_loop].
  - replace count with 0 by lia. cbn. exists false, s.
    rewrite Nat.sub_diag. repeat split; lia.
  - destruct (Z.le_gt_cases count 1) as [Hle | Hgt].
    + assert (count = 0 \/ count = 1) as [-> | ->] by lia; cbn;
        exists false, s; rewrite Nat.sub_diag; repeat split; lia.
    + rewrite count_down_finite by lia. unfold kern_path.
      destruct (lookup_ret s (path_lookups s) =? 0).
      * do 2 eexists. split; [reflexivity|].
        cbn [path_lookups log set_path_lookups]. split; lia.
      * destruct (IH fuel (count - 1)
                    (exec (msleep interval)
                       (log (EvKernPath dir (lookup_ret s (path_lookups s)))
                          (set_path_lookups (S (path_lookups s)) s))))
          as (r & s' & Hrun & Hle & Hbound); try lia.
        exists r, s'. split; [exact Hrun|].
        cbn [path_lookups log set_path_lookups exec msleep modify snd]
          in Hle, Hbound. split; lia.
Qed.

(** X2.  With a finite budget the wait always returns, given fuel for
    [count] iterations, and makes at most [count - 1] lookups. *)
Theorem wait_vfsmount_finite (dir : string) (interval count : Z)
    (fuel : nat) (s : state) :
  0 <= count < INFINITY ->
  (Z.to_nat count < fuel)%nat ->
  exists r s',
    wait_vfsmount fuel (Some dir) interval count s = Some (r, s') /\
    (path_lookups s <= path_lookups s')%nat /\
    Z.of_nat (path_lookups s' - path_lookups s) <= Z.max 0 (count - 1).
Proof.
  intros Hc Hfuel.
  apply (wait_loop_finite dir interval (Z.to_nat count)); [exact Hc | lia | exact Hfuel].
Qed.

Lemma wait_vfsmount_finite_witness :
  exists r s',
    wait_vfsmount 4 (Some TS_DIR) 1000 3 MoreExamples.s_never_mounts
    = Some (r, s') /\
    (path_lookups MoreExamples.s_never_mounts <= path_lookups s')%nat /\
    Z.of_nat (path_lookups s' - path_lookups MoreExamples.s_never_mounts)
      <= Z.max 0 (3 - 1).
Proof.
  apply (wait_vfsmount_finite TS_DIR 1000 3 4 MoreExamples.s_never_mounts).
  - vm_compute. split; [discriminate | reflexivity].
  - vm_compute. apply le_n.
Defined.

(** X3.  The wait returns [false] only for a null path, without touching
    anything, or with a finite budget after lookups that all failed.
    With the infinite budget it never returns [false]. *)
Theorem wait_vfsmount_false (fuel : nat) (dir_name : option string)
    (interval count : Z) (s s' : state) :
  0 <= count <= INFINITY ->
  wait_vfsmount fuel dir_name interval count s = Some (false, s') ->
  (dir_name = None /\ s' = s) \/
  (count <> INFINITY /\
   lookup_ret s' = lookup_ret s /\
   (path_lookups s <= path_lookups s')%nat /\
   forall j, (path_lookups s <= j < path_lookups s')%nat ->
             lookup_ret s j <> 0).
Proof.
  intros Hc Hrun. destruct dir_name as [dir|]; cbn in Hrun.
  - right. destruct (wait_loop_false dir interval fuel count s s' Hc Hrun)
      as (Hne & Hle & Hlr & Hall). auto.
  - left. injection Hrun as <-. auto.
Qed.

Lemma wait_vfsmount_false_witness :
  (Some TS_DIR = None /\
   MoreExamples.s_gave_up = MoreExamples.s_never_mounts) \/
  (3 <> INFINITY /\
   lookup_ret MoreExamples.s_gave_up
   = lookup_ret MoreExamples.s_never_mounts /\
   (path_lookups MoreExamples.s_never_mounts
    <= path_lookups MoreExamples.s_gave_up)%nat /\
   forall j,
     (path_lookups MoreExamples.s_never_mounts <= j
      < path_lookups MoreExamples.s_gave_up)%nat ->
     lookup_ret MoreExamples.s_never_mounts j <> 0).
Proof.
  apply (wait_vfsmount_false 4 (Some TS_DIR) 1000 3).
  - vm_compute. split; discriminate.
  - vm_compute. reflexivity.
Defined.

Lemma slept_app (a b : list event) : slept (a ++ b) = slept a ++ slept b.
Proof.
  induction a as [|e a IH]; [reflexivity|].
  destruct e; cbn; rewrite IH; reflexivity.
Qed.

Lemma slept_poll (dir : string) (i : Z) (k : nat) :
  forall lr n, slept (poll_events dir i k lr n) = repeat i k.
Proof.
  induction k as [|k IH]; intros lr n; [reflexivity|].
  cbn [poll_events]. rewrite slept_app, IH. cbn [slept app].
  now rewrite <- repeat_cons.
Qed.

(** X4.  When the path resolves at the [k]-th poll and the budget covers
    it, the wait returns [true] after exactly [k + 1] lookups and [k]
    sleeps of [trigger_interval] each, and changes nothing else in the
    module. *)
Theorem wait_vfsmount_polls (dir : string) (interval count : Z)
    (k fuel : nat) (s : state) :
  mounts_after s k -> budget_covers count k -> (k < fuel)%nat ->
  exists s',
    wait_vfsmount fuel (Some dir) interval count s = Some (true, s') /\
    path_lookups s' = S (path_lookups s + k) /\
    slept (trace s') = repeat interval k ++ slept (trace s) /\
    g_stamp s' = g_stamp s /\
    ts_write_work s' = ts_write_work s /\
    ts_read_work s' = ts_read_work s /\
    tickstamp_file s' = tickstamp_file s.
Proof.
  intros Hm Hb Hfuel. exists (waited dir interval k s).
  split; [now apply wait_vfsmount_covers|].
  unfold waited, with_lookups. cbn [path_lookups trace slept g_stamp
    ts_write_work ts_read_work tickstamp_file].
  rewrite slept_app, slept_poll. repeat split; reflexivity.
Qed.

Lemma wait_vfsmount_polls_witness :
  exists s',
    wait_vfsmount 3 (Some TS_DIR) 1000 INFINITY MoreExamples.s_slow_mount
    = Some (true, s') /\
    path_lookups s' = S (path_lookups MoreExamples.s_slow_mount + 2) /\
    slept (trace s')
    = repeat 1000 2 ++ slept (trace MoreExamples.s_slow_mount) /\
    g_stamp s' = g_stamp MoreExamples.s_slow_mount /\
    ts_write_work s' = ts_write_work MoreExamples.s_slow_mount /\
    ts_read_work s' = ts_read_work MoreExamples.s_slow_mount /\
    tickstamp_file s' = tickstamp_file MoreExamples.s_slow_mount.
Proof.
  apply (wait_vfsmount_polls TS_DIR 1000 INFINITY 2 3
           MoreExamples.s_slow_mount).
  - split.
    + intros j Hj.
      destruct j as [|[|j]]; [vm_compute; discriminate ..|].
      exfalso. apply (Nat.nlt_0_r j). now do 2 apply Nat.succ_lt_mono.
    + vm_compute. reflexivity.
  - now left.
  - apply le_n.
Defined.

(** ** The storage gateway *)

(** X5.  [ts_open], [ts_read] and [ts_write] leave the address limit as
    they found it, whatever the outcome of the file operation; and since
    the transfer itself runs under [KERNEL_DS], a read that the file
    system does not refuse returns a byte count between 0 and [count]. *)
Theorem gateway_restores_addr_limit (s : state) (path : string)
    (flags : open_flags) (mode : Z) (fp : file) (data : list Z)
    (count : nat) :
  addr_limit (exec (ts_open path flags mode) s) = addr_limit s /\
  addr_limit (exec (ts_read fp Buf_g_stamp count) s) = addr_limit s /\
  addr_limit (exec (ts_write fp data count) s) = addr_limit s /\
  match read_err s with
  | Some e => eval (ts_read fp Buf_g_stamp count) s = Z.neg e
  | None => 0 <= eval (ts_read fp Buf_g_stamp count) s <= Z.of_nat count
  end.
Proof.
  destruct s as [g fn ww ? ? ? ? ? al ? ? ? fl oe re we cr ?].
  repeat split.
  - unfold exec, ts_open, bind, fs_set, fs_restore, get_fs, set_fs, gets,
      modify, ret, filp_open, printk.
    cbn -[String.eqb TS_PATH].
    destruct oe as [e|]; [reflexivity|].
    destruct (String.eqb path TS_PATH); cbn -[TS_PATH]; [|reflexivity].
    destruct flags, fl; reflexivity.
  - destruct re; reflexivity.
  - destruct we; reflexivity.
  - destruct re as [e|]; [reflexivity|].
    unfold eval, ts_read, bind, fs_set, fs_restore, get_fs, set_fs, gets,
      modify, ret, vfs_read.
    cbn -[firstn skipn Z.of_nat].
    rewrite length_firstn. lia.
Qed.

(** ** The workers *)

Lemma exit_releases_mutex (tsfp : option file) (size tick : Z) (s : state) :
  mutex_held (exec (ts_read_stamp_exit tsfp size tick) s) = false.
Proof.
  destruct s as [g fn ww ? ? ? ? [|] ? ? ? ? ? ? ? ? cr ?].
  all: destruct tsfp as [fp|]; ts_run; destruct (size <? 0);
    try destruct (cr =? 0); try destruct fn as [f|];
    try destruct ww as [[|] ? ?]; ts_run; reflexivity.
Qed.

Lemma exit_keeps_file (tsfp : option file) (size tick : Z) (s : state) :
  tickstamp_file (exec (ts_read_stamp_exit tsfp size tick) s)
  = tickstamp_file s.
Proof.
  destruct (Z.lt_ge_cases size 0) as [Hneg | Hpos].
  - now destruct (exit_fallback tsfp size tick s Hneg) as (_ & _ & _ & _ & H).
  - now destruct (exit_accept tsfp size tick s Hpos) as (_ & _ & _ & _ & H).
Qed.

(** Whatever the state of the store, the body of the recovery worker
    reaches [_exit] having touched neither the persist worker nor the
    file. *)
Lemma mounted_exit_form (s : state) :
  exists tsfp size tick sm g n,
    exec ts_read_stamp_mounted s
    = exec (ts_read_stamp_exit tsfp size tick) sm /\
    at_exit s sm g n.
Proof.
  destruct (open_err s) as [oe|] eqn:Ho.
  { destruct (mounted_open_fails s) as (sm & Heq & Hexit).
    - left. rewrite Ho. discriminate.
    - do 6 eexists. split; [exact Heq | exact Hexit]. }
  destruct (tickstamp_file s) as [c|] eqn:Hf.
  2:{ destruct (mounted_open_fails s) as (sm & Heq & Hexit).
      - now right.
      - do 6 eexists. split; [exact Heq | exact Hexit]. }
  destruct (read_err s) as [e|] eqn:Hr.
  { destruct (mounted_read_error s c e Ho Hf Hr) as (sm & Heq & Hexit).
    do 6 eexists. split; [exact Heq | exact Hexit]. }
  destruct (g_ticker_fn s) as [f|] eqn:Ht.
  2:{ destruct (mounted_no_ticker s c Ho Hf Hr Ht) as (sm & Heq & Hexit).
      do 6 eexists. split; [exact Heq | exact Hexit]. }
  destruct (Z.le_gt_cases (epoch (stamp_after_read c (g_stamp s)))
              (to_long (to_ulong (f (ticker_calls s))))) as [Hle | Hgt].
  - destruct (mounted_accept s c f Ho Hf Hr Ht Hle) as (sm & Heq & Hexit).
    do 6 eexists. split; [exact Heq | exact Hexit].
  - destruct (mounted_regress s c f Ho Hf Hr Ht Hgt) as (sm & Heq & Hexit).
    do 6 eexists. split; [exact Heq | exact Hexit].
Qed.

Lemma read_run_exit_form (fuel : nat) (w : work_id) (s sf : state) :
  ts_read_stamp fuel w s = Some (tt, sf) ->
  exists tsfp size tick sm g n,
    sf = exec (ts_read_stamp_exit tsfp size tick) sm /\
    at_exit s sm g n.
Proof.
  intros Hrun. unfold ts_read_stamp, wait_vfsmount in Hrun.
  destruct (wait_loop _ _ _ _ _) as [[r s1]|] eqn:Hwait; [|discriminate].
  apply wait_loop_frame in Hwait. destruct Hwait as (m & tr & -> & Htr).
  destruct r; rewrite run_unit in Hrun; injection Hrun as <-.
  - destruct (mounted_exit_form (with_lookups m tr s))
      as (tsfp & size & tick & sm & g & n & Heq & Hexit).
    apply at_exit_with_lookups in Hexit; [|exact Htr].
    do 6 eexists. split; [exact Heq | exact Hexit].
  - exists None, (- EIO), 0, (with_lookups m tr s).
    do 2 eexists. split; [reflexivity|].
    apply (at_exit_with_lookups s _ _ _ m tr Htr), at_exit_refl.
Qed.

(** What the body of the persist worker does, on every path: it
    releases the mutex, leaves [file_after_persist] in the file, and
    adds to the trace. *)
Lemma write_mounted_state (s : state) :
  exists tr,
    exec ts_write_stamp_mounted s
    = mk_state (g_stamp s) (g_ticker_fn s) (ts_write_work s)
        (ts_write_fn s) (ts_read_work s) (ts_read_fn s) (init_done s)
        false (addr_limit s) (ticker_calls s) (path_lookups s)
        (lookup_ret s) (file_after_persist s) (open_err s) (read_err s)
        (write_err s) (close_ret s) tr /\
    bad_unlocks tr = bad_unlocks (trace s).
Proof.
  destruct s as [g fn ww ? ? ? ? [|] ? ? ? ? fl oe ? we cr ?].
  all: unfold file_after_persist. all: fields.
  all: destruct oe as [e|]; [| destruct we as [e|]];
    ts_run; try destruct (cr =? 0); ts_run; eexists;
    (split;
     [ cbn [firstn skipn app];
       rewrite <- ?(stamp_bytes_length g), ?firstn_all, ?app_nil_r;
       reflexivity
     | reflexivity ]).
Qed.

Lemma write_mounted_outcome (s : state) :
  let sf := exec ts_write_stamp_mounted s in
  g_stamp sf = g_stamp s /\
  g_ticker_fn sf = g_ticker_fn s /\
  ts_write_work sf = ts_write_work s /\
  ts_read_work sf = ts_read_work s /\
  ticker_calls sf = ticker_calls s /\
  mutex_held sf = false /\
  tickstamp_file sf = file_after_persist s.
Proof.
  destruct (write_mounted_state s) as (tr & Heq & _). cbv zeta.
  rewrite Heq. repeat split.
Qed.

Lemma write_exit_outcome (size : Z) (s : state) :
  let sf := exec (ts_write_stamp_exit None size) s in
  g_stamp sf = g_stamp s /\
  g_ticker_fn sf = g_ticker_fn s /\
  ts_write_work sf = ts_write_work s /\
  ts_read_work sf = ts_read_work s /\
  ticker_calls sf = ticker_calls s /\
  mutex_held sf = false /\
  tickstamp_file sf = tickstamp_file s.
Proof.
  destruct s as [g fn ww ? ? ? ? [|] ? ? ? ? fl oe ? we cr ?].
  all: ts_run. all: destruct (size <? 0); ts_run; repeat split.
Qed.

Lemma bad_unlocks_app (a b : list event) :
  bad_unlocks (a ++ b) = (bad_unlocks a + bad_unlocks b)%nat.
Proof.
  induction a as [|e a IH]; [reflexivity|].
  destruct e; cbn; rewrite IH; reflexivity.
Qed.

(** The wait adds no unlock to the trace and leaves the mutex alone. *)
Lemma wait_loop_frame_unlocks (dir : string) (i : Z) (fuel : nat) :
  forall count s r s1,
    wait_loop fuel dir i count s = Some (r, s1) ->
    exists n tr, s1 = with_lookups n tr s /\
                 bad_unlocks tr = bad_unlocks (trace s).
Proof.
  induction fuel as [|fuel IH]; intros count s r s1 H; [discriminate|].
  cbn [wait_loop] in H.
  destruct (count_down (Some count) 1) as [[|] v].
  - unfold kern_path in H.
    destruct (lookup_ret s (path_lookups s) =? 0).
    + injection H as <- <-. do 2 eexists. split; [destruct s; reflexivity|].
      reflexivity.
    + apply IH in H. destruct H as (n & tr & -> & Hp).
      exists n, tr. split; [destruct s; reflexivity | exact Hp].
  - injection H as <- <-. exists (path_lookups s), (trace s).
    split; [destruct s; reflexivity | reflexivity].
Qed.

(** From [_exit] the recovery worker unlocks once: a misuse exactly when
    the mutex is not held there. *)
Lemma exit_unlocks (tsfp : option file) (size tick : Z) (s : state) :
  bad_unlocks (trace (exec (ts_read_stamp_exit tsfp size tick) s))
  = ((if mutex_held s then 0 else 1) + bad_unlocks (trace s))%nat.
Proof.
  destruct s as [g fn ww ? ? ? ? [|] ? ? ? ? ? ? ? ? cr ?];
    destruct tsfp as [fp|]; ts_run; destruct (size <? 0);
    try destruct (cr =? 0); try destruct fn as [f|];
    try destruct ww as [[|] ? ?]; ts_run; reflexivity.
Qed.

(** The body of the recovery worker reaches [_exit] holding the mutex,
    on every path, and has unlocked nothing before. *)
Lemma mounted_exit_locked (s : state) :
  exists tsfp size tick sm,
    exec ts_read_stamp_mounted s
    = exec (ts_read_stamp_exit tsfp size tick) sm /\
    mutex_held sm = true /\
    bad_unlocks (trace sm) = bad_unlocks (trace s).
Proof.
  destruct s as [g fn ww ? ? ? ? [|] ? ? ? ? fl oe re ? cr ?];
    destruct oe as [e|]; destruct fl as [c|]; destruct re as [e'|];
    destruct fn as [f|]; ts_pre;
    try match goal with
        | |- context [if ?a >? ?b then _ else _] => destruct (a >? b)
        end;
    ts_pre; do 4 eexists; (split; [reflexivity|]); split; reflexivity.
Qed.

Lemma write_unlocks (s : state) :
  bad_unlocks (trace (exec ts_write_stamp_mounted s))
  = bad_unlocks (trace s) /\
  forall size,
    bad_unlocks (trace (exec (ts_write_stamp_exit None size) s))
    = ((if mutex_held s then 0 else 1) + bad_unlocks (trace s))%nat.
Proof.
  split.
  - destruct (write_mounted_state s) as (tr & -> & Htr). exact Htr.
  - intros size.
    destruct s as [g fn ww ? ? ? ? [|] ? ? ? ? fl oe ? we cr ?];
      ts_run; destruct (size <? 0); reflexivity.
Qed.

(** X6.  Started with the mutex free, each worker returns with it free.
    When the mount wait has succeeded, the worker locks once and unlocks
    once on every path, so no unlock finds the mutex free; when the wait
    has failed, the worker jumps to [_exit] without having locked and its
    [mutex_unlock] is one unlock of a mutex that is not held. *)
Theorem workers_mutex_balance (fuel : nat) (w : work_id) (s s1 : state)
    (r : bool) :
  mutex_held s = false ->
  wait_vfsmount fuel (Some TS_DIR) (trigger_interval (get_work w s))
    (retrigger_count (get_work w s)) s = Some (r, s1) ->
  (exists sf,
     ts_read_stamp fuel w s = Some (tt, sf) /\
     mutex_held sf = false /\
     bad_unlocks (trace sf)
     = ((if r then 0 else 1) + bad_unlocks (trace s))%nat) /\
  (exists sf,
     ts_write_stamp fuel w s = Some (tt, sf) /\
     mutex_held sf = false /\
     bad_unlocks (trace sf)
     = ((if r then 0 else 1) + bad_unlocks (trace s))%nat).
Proof.
  intros Hfree Hwait.
  unfold ts_read_stamp, ts_write_stamp. rewrite Hwait.
  cbn [wait_vfsmount] in Hwait. apply wait_loop_frame_unlocks in Hwait.
  destruct Hwait as (m & tr & -> & Htr).
  assert (Hfree1 : mutex_held (with_lookups m tr s) = false) by exact Hfree.
  assert (Htr1 : bad_unlocks (trace (with_lookups m tr s))
                 = bad_unlocks (trace s)) by exact Htr.
  destruct r; split; rewrite run_unit; eexists;
    (split; [reflexivity|]).
  - destruct (mounted_exit_locked (with_lookups m tr s))
      as (tsfp & size & tick & sm & -> & Hheld & Hu).
    split; [apply exit_releases_mutex|].
    now rewrite exit_unlocks, Hheld, Hu, Htr1.
  - split; [apply write_mounted_outcome|].
    now rewrite (proj1 (write_unlocks _)), Htr1.
  - split; [apply exit_releases_mutex|].
    now rewrite exit_unlocks, Hfree1, Htr1.
  - split; [apply write_exit_outcome|].
    now rewrite (proj2 (write_unlocks _)), Hfree1, Htr1.
Qed.

(** X7.  The persist worker never changes the live stamp, the ticker
    registration, the ticker call count or either work item: it reads no
    ticker and, when it fails, does not queue itself again. *)
Theorem persist_preserves_accumulator (fuel : nat) (w : work_id)
    (s sf : state) :
  ts_write_stamp fuel w s = Some (tt, sf) ->
  g_stamp sf = g_stamp s /\
  g_ticker_fn sf = g_ticker_fn s /\
  ts_write_work sf = ts_write_work s /\
  ts_read_work sf = ts_read_work s /\
  ticker_calls sf = ticker_calls s.
Proof.
  intros Hrun. unfold ts_write_stamp, wait_vfsmount in Hrun.
  destruct (wait_loop _ _ _ _ _) as [[r s1]|] eqn:Hwait; [|discriminate].
  apply wait_loop_frame in Hwait. destruct Hwait as (m & tr & -> & _).
  destruct r; rewrite run_unit in Hrun; injection Hrun as <-.
  - destruct (write_mounted_outcome (with_lookups m tr s))
      as (H1 & H2 & H3 & H4 & H5 & _). auto.
  - destruct (write_exit_outcome (- EIO) (with_lookups m tr s))
      as (H1 & H2 & H3 & H4 & H5 & _). auto.
Qed.

(** X8.  Once the cache directory resolves, the persist worker leaves in
    the file: what was there when the open fails; nothing at all when
    the write fails, the open having truncated the file; and the 8-byte
    image of the live stamp otherwise. *)
Theorem persist_file_outcome (s : state) (k fuel : nat) :
  mounts_after s k ->
  budget_covers (retrigger_count (ts_write_work s)) k ->
  (k < fuel)%nat ->
  exists sf,
    ts_write_stamp fuel WriteWork s = Some (tt, sf) /\
    tickstamp_file sf = file_after_persist s.
Proof.
  intros Hm Hb Hfuel.
  rewrite (ts_write_stamp_mounts s k fuel Hm Hb Hfuel).
  eexists. split; [reflexivity|].
  destruct (write_mounted_outcome
              (waited TS_DIR (trigger_interval (ts_write_work s)) k s))
    as (_ & _ & _ & _ & _ & _ & Hf).
  rewrite Hf. reflexivity.
Qed.

(** X13.  The recovery worker never changes the file, on any path; what
    it has to say it says through the persist worker. *)
Theorem recovery_keeps_file (fuel : nat) (w : work_id) (s sf : state) :
  ts_read_stamp fuel w s = Some (tt, sf) ->
  tickstamp_file sf = tickstamp_file s.
Proof.
  intros Hrun.
  destruct (read_run_exit_form fuel w s sf Hrun)
    as (tsfp & size & tick & sm & g & n & -> & Hexit).
  rewrite exit_keeps_file. apply Hexit.
Qed.

(** ** Recovery in the remaining situations *)

Lemma recovery_unvalidated_run (s : state) (k fuel : nat) (c : list Z) :
  mounts_after s k ->
  budget_covers (retrigger_count (ts_read_work s)) k ->
  (k < fuel)%nat ->
  open_err s = None -> read_err s = None ->
  tickstamp_file s = Some c ->
  g_ticker_fn s = None ->
  exists sf,
    ts_read_stamp fuel ReadWork s = Some (tt, sf) /\
    g_stamp sf = stamp_after_read c (g_stamp s) /\
    ticker_calls sf = ticker_calls s /\
    ts_write_work sf = ts_write_work s /\
    persist_requests (trace sf) = persist_requests (trace s) /\
    tickstamp_file sf = tickstamp_file s.
Proof.
  intros Hm Hb Hfuel Ho Hr Hf Ht.
  rewrite (ts_read_stamp_mounts s k fuel Hm Hb Hfuel).
  eexists. split; [reflexivity|].
  destruct (mounted_no_ticker
              (waited TS_DIR (trigger_interval (ts_read_work s)) k s) c)
    as (sm & -> & Hexit); try (waited_fields; assumption).
  apply at_exit_waited in Hexit. revert Hexit. waited_fields. intros Hexit.
  apply (accept_outcome _ _ _ _ Hexit). lia.
Qed.

(** X12.  With no ticker registered the recovery worker validates
    nothing: a record read without error becomes the live stamp whatever
    its epoch, and no persist is requested; and when the open fails the
    live stamp is left as it is, the stamp of the fallback being a no-op,
    while the persist worker is queued all the same. *)
Theorem recovery_without_ticker (s : state) (k fuel : nat) :
  mounts_after s k ->
  budget_covers (retrigger_count (ts_read_work s)) k ->
  (k < fuel)%nat ->
  g_ticker_fn s = None ->
  (forall c,
     open_err s = None -> read_err s = None -> tickstamp_file s = Some c ->
     exists sf,
       ts_read_stamp fuel ReadWork s = Some (tt, sf) /\
       g_stamp sf = stamp_after_read c (g_stamp s) /\
       ts_write_work sf = ts_write_work s /\
       persist_requests (trace sf) = persist_requests (trace s)) /\
  (open_fails s ->
     exists sf,
       ts_read_stamp fuel ReadWork s = Some (tt, sf) /\
       g_stamp sf = g_stamp s /\
       ticker_calls sf = ticker_calls s /\
       pending (ts_write_work sf) = true /\
       persist_requests (trace sf) = S (persist_requests (trace s))).
Proof.
  intros Hm Hb Hfuel Ht. split.
  - intros c Ho Hr Hf.
    destruct (recovery_unvalidated_run s k fuel c Hm Hb Hfuel Ho Hr Hf Ht)
      as (sf & Hrun & Hg & _ & Hw & Hp & _).
    exists sf. auto.
  - intros Hfail.
    destruct (recovery_no_open_run s k fuel Hm Hb Hfuel Hfail)
      as (sf & Hrun & Hg & Htc & Hw & Hp & _).
    rewrite Ht in Hg, Htc. exists sf. auto.
Qed.

(** X14.  Once the cache directory resolves, the recovery worker queues
    the persist worker exactly when the open fails, the read fails, or a
    registered ticker reads less than the stamp read; otherwise the
    persist worker is left as it was. *)
Theorem recovery_fallback_iff (s : state) (k fuel : nat) :
  mounts_after s k ->
  budget_covers (retrigger_count (ts_read_work s)) k ->
  (k < fuel)%nat ->
  exists sf,
    ts_read_stamp fuel ReadWork s = Some (tt, sf) /\
    persist_requests (trace sf)
    = (if recovery_rejects s then S (persist_requests (trace s))
       else persist_requests (trace s)) /\
    pending (ts_write_work sf)
    = (recovery_rejects s || pending (ts_write_work s))%bool /\
    (recovery_rejects s = false -> ts_write_work sf = ts_write_work s).
Proof.
  intros Hm Hb Hfuel. unfold recovery_rejects.
  destruct (open_err s) as [oe|] eqn:Ho.
  { destruct (recovery_no_open_run s k fuel Hm Hb Hfuel)
      as (sf & Hrun & _ & _ & Hw & Hp & _).
    - left. rewrite Ho. discriminate.
    - exists sf. repeat split; auto. discriminate. }
  destruct (tickstamp_file s) as [c|] eqn:Hf.
  2:{ destruct (recovery_no_open_run s k fuel Hm Hb Hfuel)
        as (sf & Hrun & _ & _ & Hw & Hp & _).
      - now right.
      - exists sf. repeat split; auto. discriminate. }
  destruct (read_err s) as [e|] eqn:Hr.
  { destruct (recovery_read_error_run s k fuel c e Hm Hb Hfuel Ho Hf Hr)
      as (sf & Hrun & _ & _ & Hw & Hp & _).
    exists sf. repeat split; auto. discriminate. }
  destruct (g_ticker_fn s) as [f|] eqn:Ht.
  2:{ destruct (recovery_unvalidated_run s k fuel c Hm Hb Hfuel Ho Hr Hf Ht)
        as (sf & Hrun & _ & _ & Hw & Hp & _).
      exists sf. rewrite Hw. repeat split; auto. }
  destruct (Z.ltb_spec (to_long (to_ulong (f (ticker_calls s))))
              (epoch (stamp_after_read c (g_stamp s)))) as [Hlt | Hge].
  - destruct (recovery_regress_run s k fuel c f Hm Hb Hfuel Ho Hr Hf Ht Hlt)
      as (sf & Hrun & _ & _ & Hw & Hp & _).
    exists sf. repeat split; auto. discriminate.
  - destruct (recovery_accept_run s k fuel c f Hm Hb Hfuel Ho Hr Hf Ht Hge)
      as (sf & Hrun & _ & _ & Hw & Hp & _).
    exists sf. rewrite Hw. repeat split; auto.
Qed.

(** X15.  When the wait for the cache directory gives up, which takes a
    finite budget, the recovery worker does not return silently: without
    opening the file it makes one [ts_stamp(0)] on the live stamp and
    queues the persist worker. *)
Theorem recovery_after_failed_wait (fuel : nat) (w : work_id)
    (s s1 : state) :
  wait_vfsmount fuel (Some TS_DIR) (trigger_interval (get_work w s))
    (retrigger_count (get_work w s)) s = Some (false, s1) ->
  exists sf,
    ts_read_stamp fuel w s = Some (tt, sf) /\
    g_stamp sf = g_stamp (exec (ts_stamp 0) s) /\
    ticker_calls sf = ticker_calls (exec (ts_stamp 0) s) /\
    pending (ts_write_work sf) = true /\
    persist_requests (trace sf) = S (persist_requests (trace s)) /\
    tickstamp_file sf = tickstamp_file s.
Proof.
  intros Hwait. unfold ts_read_stamp. rewrite Hwait, run_unit.
  eexists. split; [reflexivity|].
  cbn [wait_vfsmount] in Hwait. apply wait_loop_frame in Hwait.
  destruct Hwait as (m & tr & -> & Htr).
  pose proof (at_exit_with_lookups s _ _ _ m tr Htr
                (at_exit_refl (with_lookups m tr s))) as Hexit.
  cbn [with_lookups g_stamp ticker_calls] in Hexit.
  rewrite ts_stamp_g_stamp, ts_stamp_ticker_calls.
  apply (fallback_outcome _ _ _ _ Hexit None (- EIO) 0 eq_refl).
Qed.

(** ** Initialisation *)

(** X10.  [ts_init] takes effect once: a second call, with whatever
    ticker, returns [true] and changes nothing, so the ticker registered
    first stays and the recovery worker is not queued again. *)
Theorem ts_init_once (t1 t2 : option ticker_func) (s : state) :
  ts_init t2 (exec (ts_init t1) s) = (true, exec (ts_init t1) s).
Proof.
  destruct s as [g fn ww ? [rp ? ?] ? [|] ? ? ? ? ? ? ? ? ? ? ?];
    reflexivity.
Qed.

(** X11.  The first [ts_init] always returns [true]: it registers the
    ticker, gives both work items the infinite budget and an interval of
    1000, binds them to their functions, queues the recovery worker only,
    and leaves the live stamp alone.  Afterwards the budget of the
    recovery worker covers any number of polls. *)
Theorem ts_init_first (t : option ticker_func) (s : state) :
  init_done s = false ->
  eval (ts_init t) s = true /\
  let sf := exec (ts_init t) s in
  g_ticker_fn sf = t /\
  ts_read_work sf = mk_work true INFINITY 1000 /\
  ts_write_work sf = mk_work false INFINITY 1000 /\
  ts_read_fn sf = Some Fn_ts_read_stamp /\
  ts_write_fn sf = Some Fn_ts_write_stamp /\
  init_done sf = true /\
  g_stamp sf = g_stamp s /\
  forall k, budget_covers (retrigger_count (ts_read_work sf)) k.
Proof.
  intros Hinit.
  destruct s as [g fn ww ? rw ? id ? ? ? ? ? ? ? ? ? ? ?].
  cbn in Hinit. subst id. repeat split. intros k. now left.
Qed.

(** X16.  An empty file, such as a failed write leaves behind, is read
    without error and changes nothing: the live stamp stays, and when it
    does not exceed the ticker no persist is requested, so the file stays
    empty. *)
Theorem recovery_of_empty_file (s : state) (k fuel : nat)
    (f : ticker_func) :
  mounts_after s k ->
  budget_covers (retrigger_count (ts_read_work s)) k ->
  (k < fuel)%nat ->
  open_err s = None -> read_err s = None ->
  tickstamp_file s = Some [] ->
  g_ticker_fn s = Some f ->
  in_long (epoch (g_stamp s)) ->
  epoch (g_stamp s) <= to_long (to_ulong (f (ticker_calls s))) ->
  exists sf,
    ts_read_stamp fuel ReadWork s = Some (tt, sf) /\
    g_stamp sf = g_stamp s /\
    ts_write_work sf = ts_write_work s /\
    persist_requests (trace sf) = persist_requests (trace s) /\
    tickstamp_file sf = Some [].
Proof.
  intros Hm Hb Hfuel Ho Hr Hf Ht Hin Hle.
  assert (Hsame : stamp_after_read [] (g_stamp s) = g_stamp s).
  { unfold stamp_after_read, SIZEOF_STAMP. cbn [firstn length skipn app].
    rewrite stamp_of_stamp_bytes. destruct (g_stamp s) as [e].
    cbn [epoch] in *. now rewrite to_long_id. }
  destruct (recovery_accept_run s k fuel [] f Hm Hb Hfuel Ho Hr Hf Ht)
    as (sf & Hrun & Hg & _ & Hw & Hp & Hfile).
  { now rewrite Hsame. }
  exists sf. rewrite Hg, Hsame, Hfile, Hf. auto.
Qed.

(** * The further properties on concrete runs *)

Section MoreRuns.
Import Examples MoreExamples.

Lemma workers_mutex_balance_witness :
  (exists sf,
     ts_read_stamp 4 ReadWork s_never_mounts = Some (tt, sf) /\
     mutex_held sf = false /\
     bad_unlocks (trace sf)
     = ((if false then 0 else 1) + bad_unlocks (trace s_never_mounts))%nat) /\
  (exists sf,
     ts_write_stamp 4 ReadWork s_never_mounts = Some (tt, sf) /\
     mutex_held sf = false /\
     bad_unlocks (trace sf)
     = ((if false then 0 else 1) + bad_unlocks (trace s_never_mounts))%nat).
Proof.
  apply (workers_mutex_balance 4 ReadWork s_never_mounts s_gave_up false).
  - reflexivity.
  - vm_compute. reflexivity.
Defined.

Lemma persist_preserves_accumulator_witness :
  g_stamp s_persisted = g_stamp s_live /\
  g_ticker_fn s_persisted = g_ticker_fn s_live /\
  ts_write_work s_persisted = ts_write_work s_live /\
  ts_read_work s_persisted = ts_read_work s_live /\
  ticker_calls s_persisted = ticker_calls s_live.
Proof.
  apply (persist_preserves_accumulator 1 WriteWork s_live s_persisted).
  vm_compute. reflexivity.
Defined.

Lemma persist_file_outcome_witness :
  exists sf,
    ts_write_stamp 1 WriteWork s_write_error = Some (tt, sf) /\
    tickstamp_file sf = file_after_persist s_write_error.
Proof.
  apply (persist_file_outcome s_write_error 0 1).
  - now apply mounted_at_once.
  - now left.
  - apply le_n.
Defined.

(** At [s_write_error] the record of 8 bytes is gone after the run. *)
Lemma failed_write_empties_file :
  tickstamp_file s_write_error = Some (stamp_bytes (mk_stamp 42)) /\
  file_after_persist s_write_error = Some [].
Proof. vm_compute. split; reflexivity. Qed.

Lemma persist_then_recover_witness :
  exists sf,
    ts_read_stamp 1 ReadWork s_reboot = Some (tt, sf) /\
    g_stamp sf = g_stamp s_live /\
    persist_requests (trace sf) = persist_requests (trace s_reboot).
Proof.
  apply (persist_then_recover s_live s_persisted s_reboot 0 1 0 1 ticker100).
  - vm_compute. split; discriminate.
  - now apply mounted_at_once.
  - now left.
  - apply le_n.
  - reflexivity.
  - reflexivity.
  - vm_compute. reflexivity.
  - reflexivity.
  - now apply mounted_at_once.
  - now left.
  - apply le_n.
  - reflexivity.
  - reflexivity.
  - reflexivity.
  - vm_compute. discriminate.
Defined.

Lemma recovery_without_ticker_witness :
  exists sf,
    ts_read_stamp 1 ReadWork s_no_ticker = Some (tt, sf) /\
    g_stamp sf
    = stamp_after_read (stamp_bytes (mk_stamp 1000000))
        (g_stamp s_no_ticker) /\
    ts_write_work sf = ts_write_work s_no_ticker /\
    persist_requests (trace sf) = persist_requests (trace s_no_ticker).
Proof.
  apply (proj1 (recovery_without_ticker s_no_ticker 0 1
                  (mounted_at_once s_no_ticker eq_refl)
                  (or_introl eq_refl) (le_n 1) eq_refl));
    reflexivity.
Defined.

Lemma recovery_keeps_file_witness :
  tickstamp_file s_recovered_unmounted = tickstamp_file s_never_mounts.
Proof.
  apply (recovery_keeps_file 4 ReadWork s_never_mounts).
  vm_compute. reflexivity.
Defined.

Lemma recovery_fallback_iff_witness :
  exists sf,
    ts_read_stamp 1 ReadWork (s_record 200) = Some (tt, sf) /\
    persist_requests (trace sf)
    = (if recovery_rejects (s_record 200)
       then S (persist_requests (trace (s_record 200)))
       else persist_requests (trace (s_record 200))) /\
    pending (ts_write_work sf)
    = (recovery_rejects (s_record 200)
       || pending (ts_write_work (s_record 200)))%bool /\
    (recovery_rejects (s_record 200) = false ->
     ts_write_work sf = ts_write_work (s_record 200)).
Proof.
  apply (recovery_fallback_iff (s_record 200) 0 1).
  - now apply mounted_at_once.
  - now left.
  - apply le_n.
Defined.

Lemma recovery_after_failed_wait_witness :
  exists sf,
    ts_read_stamp 4 ReadWork s_never_mounts = Some (tt, sf) /\
    g_stamp sf = g_stamp (exec (ts_stamp 0) s_never_mounts) /\
    ticker_calls sf = ticker_calls (exec (ts_stamp 0) s_never_mounts) /\
    pending (ts_write_work sf) = true /\
    persist_requests (trace sf)
    = S (persist_requests (trace s_never_mounts)) /\
    tickstamp_file sf = tickstamp_file s_never_mounts.
Proof.
  apply (recovery_after_failed_wait 4 ReadWork s_never_mounts s_gave_up).
  vm_compute. reflexivity.
Defined.

Lemma ts_init_first_witness :
  eval (ts_init (Some ticker100)) (boot (fun _ => 0) None None None None 0)
  = true.
Proof.
  apply (ts_init_first (Some ticker100)
           (boot (fun _ => 0) None None None None 0)).
  reflexivity.
Defined.

Lemma recovery_of_empty_file_witness :
  exists sf,
    ts_read_stamp 1 ReadWork (booted (Some [])) = Some (tt, sf) /\
    g_stamp sf = g_stamp (booted (Some [])) /\
    ts_write_work sf = ts_write_work (booted (Some [])) /\
    persist_requests (trace sf)
    = persist_requests (trace (booted (Some []))) /\
    tickstamp_file sf = Some [].
Proof.
  apply (recovery_of_empty_file (booted (Some [])) 0 1 ticker100).
  - now apply mounted_at_once.
  - now left.
  - apply le_n.
  - reflexivity.
  - reflexivity.
  - reflexivity.
  - reflexivity.
  - vm_compute. split; discriminate.
  - vm_compute. discriminate.
Defined.

(** C3, refuted as stated: with the ticker at 2^63 and a record of
    epoch 5 the reading is above the epoch, yet line 153 compares the
    reading as a [long], which is negative: the record is discarded and
    the persist worker queued. *)
Lemma recovery_discards_under_large_ticker :
  exists sf,
    ts_read_stamp 1 ReadWork s_big_ticker = Some (tt, sf) /\
    tickstamp_file s_big_ticker = Some (stamp_bytes (mk_stamp 5)) /\
    (exists f, g_ticker_fn s_big_ticker = Some f /\
               5 <= to_ulong (f (ticker_calls s_big_ticker))) /\
    epoch (g_stamp sf) <> 5 /\
    pending (ts_write_work sf) = true /\
    persist_requests (trace sf)
    = S (persist_requests (trace s_big_ticker)).
Proof.
  eexists. split; [vm_compute; reflexivity|].
  split; [reflexivity|].
  split; [exists (fun _ => 2 ^ 63); split; [reflexivity|];
          vm_compute; discriminate|].
  vm_compute. repeat split. discriminate.
Qed.



End MoreRuns.
